(** * Financial-Dashboard: the metrics computed by [financial_dashboard.py]

    The dashboard turns per-ticker price frames into return, volatility,
    Sharpe ratio, drawdown, value-at-risk and correlation figures with
    pandas and numpy.  This development embeds those computations and
    proves the properties the specification states about them.

    Numbers.  A Python/numpy float is modelled by [float]: a real number
    (rounding and overflow are abstracted: arithmetic is exact), or one of
    the three special values [PInf], [NInf] and [NaN].  [NaN] is also what
    pandas uses for a missing entry.  Signed zeros are not distinguished:
    a quotient by zero takes the sign of its numerator. *)

From Stdlib Require Import Ascii String.
From Stdlib Require Import Reals Lra Lia List ZArith Bool Arith.
From Stdlib Require Import Permutation.
Import ListNotations.
Open Scope R_scope.

(** ** Float values *)

Inductive float : Type :=
| Fin (x : R)
| PInf
| NInf
| NaN.

Definition isnan (a : float) : bool :=
  match a with NaN => true | _ => false end.

Definition notna (a : float) : bool := negb (isnan a).

(** The infinity with the sign of [x]; [NaN] when [x] is zero.  It is both
    [inf * x] and [x / 0]. *)
Definition inf_signed (x : R) : float :=
  match total_order_T x 0 with
  | inleft (left _) => NInf
  | inleft (right _) => NaN
  | inright _ => PInf
  end.

Definition fopp (a : float) : float :=
  match a with
  | Fin x => Fin (- x)
  | PInf => NInf
  | NInf => PInf
  | NaN => NaN
  end.

Definition fadd (a b : float) : float :=
  match a, b with
  | NaN, _ | _, NaN => NaN
  | Fin x, Fin y => Fin (x + y)
  | PInf, NInf | NInf, PInf => NaN
  | PInf, _ | _, PInf => PInf
  | NInf, _ | _, NInf => NInf
  end.

Definition fsub (a b : float) : float := fadd a (fopp b).

Definition fmul (a b : float) : float :=
  match a, b with
  | NaN, _ | _, NaN => NaN
  | Fin x, Fin y => Fin (x * y)
  | Fin x, PInf | PInf, Fin x => inf_signed x
  | Fin x, NInf | NInf, Fin x => inf_signed (- x)
  | PInf, PInf | NInf, NInf => PInf
  | PInf, NInf | NInf, PInf => NInf
  end.

Definition fdiv (a b : float) : float :=
  match a, b with
  | NaN, _ | _, NaN => NaN
  | Fin x, Fin y => if Req_dec_T y 0 then inf_signed x else Fin (x / y)
  | Fin _, PInf | Fin _, NInf => Fin 0
  | PInf, Fin y => if Rlt_dec y 0 then NInf else PInf
  | NInf, Fin y => if Rlt_dec y 0 then PInf else NInf
  | _, _ => NaN
  end.

Definition fsqrt (a : float) : float :=
  match a with
  | Fin x => if Rlt_dec x 0 then NaN else Fin (sqrt x)
  | PInf => PInf
  | NInf | NaN => NaN
  end.

(** [a <= b] on floats; false as soon as one side is [NaN]. *)
Definition fleb (a b : float) : bool :=
  match a, b with
  | NaN, _ | _, NaN => false
  | NInf, _ | _, PInf => true
  | Fin x, Fin y => if Rle_dec x y then true else false
  | _, _ => false
  end.

(** Python's [a != 0]: true for [NaN] and for the infinities. *)
Definition fneq0 (a : float) : bool :=
  match a with
  | Fin x => if Req_dec_T x 0 then false else true
  | _ => true
  end.

Definition fmax (a b : float) : float := if fleb a b then b else a.
Definition fmin (a b : float) : float := if fleb a b then a else b.

Arguments fdiv : simpl never.
Arguments fsqrt : simpl never.
Arguments fneq0 : simpl never.
Arguments fleb : simpl never.
Arguments inf_signed : simpl never.

(** ** pandas Series and its reductions

    A Series is a list of labelled values, in index order.  The labels of a
    price frame are its timestamps. *)

Definition Series : Type := list (Z * float).

Definition svalues (s : Series) : list float := map snd s.

(** [Series.dropna()] *)
Definition dropna (s : Series) : Series :=
  filter (fun e => notna (snd e)) s.

Definition valid (v : list float) : list float := filter notna v.

Definition fsum (v : list float) : float :=
  fold_left fadd v (Fin 0).

(** [Series.mean()], which skips missing values; the mean of no value is
    the quotient 0/0. *)
Definition mean (v : list float) : float :=
  let w := valid v in
  fdiv (fsum w) (Fin (INR (length w))).

(** [Series.std()]: the sample standard deviation ([ddof = 1]) of the
    values that are present; [NaN] when fewer than two are. *)
Definition std (v : list float) : float :=
  let w := valid v in
  let n := length w in
  if (n <=? 1)%nat then NaN
  else
    let avg := fdiv (fsum w) (Fin (INR n)) in
    let sqr := fsum (map (fun x => fmul (fsub avg x) (fsub avg x)) w) in
    fsqrt (fdiv sqr (Fin (INR n - 1))).

(** [Series.min()]: the least value present, [NaN] when there is none. *)
Definition smin (v : list float) : float :=
  match valid v with
  | [] => NaN
  | x :: w => fold_left fmin w x
  end.

(** [Series.cumprod()]: a missing entry stays missing and does not enter
    the running product. *)
Fixpoint cumprod_from (acc : float) (v : list float) : list float :=
  match v with
  | [] => []
  | x :: v' =>
      if isnan x then NaN :: cumprod_from acc v'
      else let acc' := fmul acc x in acc' :: cumprod_from acc' v'
  end.

Definition cumprod (v : list float) : list float := cumprod_from (Fin 1) v.

(** [Series.expanding().max()]: the greatest value present so far, [NaN]
    until there is one.  [acc] is [NaN] while nothing was seen. *)
Fixpoint expanding_max_from (acc : float) (v : list float) : list float :=
  match v with
  | [] => []
  | x :: v' =>
      let acc' := if isnan x then acc
                  else if isnan acc then x else fmax acc x in
      acc' :: expanding_max_from acc' v'
  end.

Definition expanding_max (v : list float) : list float :=
  expanding_max_from NaN v.

(** Elementwise operation of two Series over the same index. *)
Fixpoint zip_with (f : float -> float -> float) (u v : list float) : list float :=
  match u, v with
  | x :: u', y :: v' => f x y :: zip_with f u' v'
  | _, _ => []
  end.

(** ** Price frames *)

(** One row of the frame [yf.download] returns: the timestamp that labels
    it and its [Close], a number in every row.  The other columns are not
    read by the computations below. *)
Record row : Type := mkRow { stamp : Z; Close : R }.

Definition DataFrame : Type := list row.

(** [df['Close']] *)
Definition close_col (df : DataFrame) : Series :=
  map (fun r => (stamp r, Fin (Close r))) df.

(** [Series.pct_change()]: [NaN] on the first label, then the quotient of
    each value by the one before it, minus one. *)
Fixpoint pct_change_from (prev : float) (s : Series) : Series :=
  match s with
  | [] => []
  | (t, p) :: s' => (t, fsub (fdiv p prev) (Fin 1)) :: pct_change_from p s'
  end.

Definition pct_change (s : Series) : Series :=
  match s with
  | [] => []
  | (t, p) :: s' => (t, NaN) :: pct_change_from p s'
  end.

(** [df['Close'].pct_change()] *)
Definition returns_col (df : DataFrame) : Series := pct_change (close_col df).

(** [df['Close'].pct_change().dropna()] *)
Definition daily_returns (df : DataFrame) : Series := dropna (returns_col df).

(** ** [calculate_metrics] *)

Record Metrics : Type := mkMetrics {
  current_price : float;
  total_return : float;
  volatility : float;
  sharpe_ratio : float;
  max_drawdown : float
}.

Definition sqrt252 : float := Fin (sqrt 252).

Definition risk_free_rate : R := 2 / 100.

(** Lines 121-132 of the source, on a return series; the portfolio block
    (lines 333-342) repeats them on the portfolio's returns. *)
Definition volatility_of (r : list float) : float :=
  fmul (fmul (std r) sqrt252) (Fin 100).

Definition sharpe_of (r : list float) : float :=
  let excess_returns := map (fun x => fsub x (Fin (risk_free_rate / 252))) r in
  if fneq0 (std r)
  then fmul (fdiv (mean excess_returns) (std r)) sqrt252
  else Fin 0.

Definition drawdown_of (r : list float) : list float :=
  let cumulative := cumprod (map (fadd (Fin 1)) r) in
  let running_max := expanding_max cumulative in
  zip_with fdiv (zip_with fsub cumulative running_max) running_max.

Definition max_drawdown_of (r : list float) : float :=
  fmul (smin (drawdown_of r)) (Fin 100).

(** [df] is [None] for Python's [None].  The [try] of the source guards a
    missing [Close] column; a frame here always has one, and none of the
    float operations raises, so the [except] branch is never taken. *)
Definition calculate_metrics (df : option DataFrame) : option Metrics :=
  match df with
  | None => None
  | Some [] => None
  | Some (r0 :: rest) =>
      let current_price := Fin (Close (last rest r0)) in
      let start_price := Fin (Close r0) in
      let total_return :=
        fmul (fdiv (fsub current_price start_price) start_price) (Fin 100) in
      let daily := svalues (daily_returns (r0 :: rest)) in
      Some {| current_price := current_price;
              total_return := total_return;
              volatility := volatility_of daily;
              sharpe_ratio := sharpe_of daily;
              max_drawdown := max_drawdown_of daily |}
  end.

(** ** Exceptions *)

Inductive exn : Type := IndexError.

Inductive outcome (A : Type) : Type :=
| Returns (a : A)
| Raises (e : exn).

Arguments Returns {A} a.
Arguments Raises {A} e.

(** ** [np.percentile] and the value-at-risk loop (lines 432-434) *)

Fixpoint insert_sorted (x : float) (l : list float) : list float :=
  match l with
  | [] => [x]
  | y :: l' => if fleb x y then x :: l else y :: insert_sorted x l'
  end.

Fixpoint sort (l : list float) : list float :=
  match l with
  | [] => []
  | x :: l' => insert_sorted x (sort l')
  end.

(** numpy's [_lerp]: the second form is used from the middle on. *)
Definition lerp (a b : float) (t : R) : float :=
  let diff_b_a := fsub b a in
  if Rle_dec (1 / 2) t
  then fsub b (fmul diff_b_a (Fin (1 - t)))
  else fadd a (fmul diff_b_a (Fin t)).

(** [np.percentile(a, q)] with the default method (linear interpolation)
    for an integer percentage [q].  The virtual index is [q/100 * (n-1)];
    its integer part and the next position select the two neighbours in the
    sorted array, its fractional part interpolates between them.  An array
    that holds a [NaN] has percentile [NaN]; an empty array has no element
    to select, and numpy raises [IndexError]. *)
Definition percentile (a : list float) (q : nat) : outcome float :=
  match a with
  | [] => Raises IndexError
  | _ :: _ =>
      if existsb isnan a then Returns NaN
      else
        let n := length a in
        let arr := sort a in
        let k := (q * (n - 1))%nat in
        let previous_index := (k / 100)%nat in
        let next_index := Nat.min (previous_index + 1) (n - 1) in
        let gamma := INR (k mod 100) / 100 in
        Returns (lerp (nth previous_index arr NaN) (nth next_index arr NaN) gamma)
  end.

(** The body of the loop at lines 432-434 for one ticker. *)
Definition var_95 (df : DataFrame) : outcome float :=
  match percentile (svalues (daily_returns df)) 5 with
  | Returns p => Returns (fmul p (Fin 100))
  | Raises e => Raises e
  end.

(** The loop of lines 431-439 over [stock_data]: the first exception
    ends it. *)
Fixpoint var_data (stock_data : list (string * DataFrame)) :
  outcome (list (string * float)) :=
  match stock_data with
  | [] => Returns []
  | (ticker, df) :: rest =>
      match var_95 df with
      | Raises e => Raises e
      | Returns v =>
          match var_data rest with
          | Raises e => Raises e
          | Returns l => Returns ((ticker, v) :: l)
          end
      end
  end.

(** The value-at-risk part of the risk tab (lines 372-442): it is reached
    when [stock_data] is not empty and [calculate_metrics] gave a record
    for at least one ticker.  [None] when it is not reached. *)
Definition risk_tab_var (stock_data : list (string * DataFrame)) :
  option (outcome (list (string * float))) :=
  let risk_data :=
    filter (fun e => match calculate_metrics (Some (snd e)) with
                     | Some _ => true
                     | None => false
                     end) stock_data in
  match risk_data with
  | [] => None
  | _ :: _ => Some (var_data stock_data)
  end.

(** ** The portfolio tab (lines 293-366) *)

(** A pandas frame: an index and named columns over it, in insertion
    order. *)
Record Frame : Type := mkFrame {
  findex : list Z;
  fcols : list (string * list float)
}.

Definition empty_frame : Frame := {| findex := []; fcols := [] |}.

Definition labels (s : Series) : list Z := map fst s.

(** The value of [s] at label [t], [NaN] when [s] has no such label. *)
Fixpoint lookup (t : Z) (s : Series) : float :=
  match s with
  | [] => NaN
  | (t', x) :: s' => if Z.eqb t t' then x else lookup t s'
  end.

(** What [frame[key] = s] stores for a Series [s]: its values when its
    index is the frame's, otherwise [s.reindex(frame.index)].  Labels are
    timestamps of one price frame, hence distinct. *)
Definition align (s : Series) (idx : list Z) : list float :=
  if list_eq_dec Z.eq_dec (labels s) idx then svalues s
  else map (fun t => lookup t s) idx.

(** Assignment in a Python dict kept in insertion order. *)
Fixpoint dict_set {A : Type} (key : string) (v : A) (d : list (string * A)) :
  list (string * A) :=
  match d with
  | [] => [(key, v)]
  | (k, w) :: d' =>
      if String.eqb key k then (k, v) :: d' else (k, w) :: dict_set key v d'
  end.

(** [frame[key] = s].  A frame without rows takes the index of the first
    non-empty Series assigned to it (its columns so far become all-[NaN]);
    afterwards the index is fixed and every Series is aligned to it. *)
Definition setitem (fr : Frame) (key : string) (s : Series) : Frame :=
  if ((length (findex fr) =? 0)%nat && negb (length s =? 0)%nat)%bool
  then {| findex := labels s;
          fcols := dict_set key (svalues s)
                     (map (fun c => (fst c, map (fun _ => NaN) s)) (fcols fr)) |}
  else {| findex := findex fr;
          fcols := dict_set key (align s (findex fr)) (fcols fr) |}.

(** The body of the loop at lines 297-298. *)
Definition add_ticker (fr : Frame) (e : string * DataFrame) : Frame :=
  setitem fr (fst e) (returns_col (snd e)).

(** Lines 295-298: the frame starts empty and receives one column per
    ticker, in the order of [stock_data]. *)
Definition portfolio_returns (stock_data : list (string * DataFrame)) : Frame :=
  fold_left add_ticker stock_data empty_frame.

(** Row [i] of a frame, across its columns. *)
Definition frame_row (fr : Frame) (i : nat) : list float :=
  map (fun c => nth i (snd c) NaN) (fcols fr).

(** [frame.mean(axis=1)] (line 301): the mean of each row over the values
    present in it. *)
Definition mean_axis1 (fr : Frame) : list float :=
  map (fun i => mean (frame_row fr i)) (seq 0 (length (findex fr))).

(** The ['Portfolio'] column, with its index. *)
Definition portfolio_column (stock_data : list (string * DataFrame)) : Series :=
  let fr := portfolio_returns stock_data in
  combine (findex fr) (mean_axis1 fr).

(** [s.iloc[-1]] *)
Definition iloc_last (v : list float) : outcome float :=
  match v with
  | [] => Raises IndexError
  | x :: v' => Returns (last v' x)
  end.

(** Pearson correlation of two columns over the rows where both have a
    value, as [DataFrame.corr()] computes each entry ([min_periods = 1]). *)
Definition pearson (x y : list float) : float :=
  let both :=
    filter (fun p => (notna (fst p) && notna (snd p))%bool) (combine x y) in
  let xs := map fst both in
  let ys := map snd both in
  let nobs := length both in
  if (nobs <? 1)%nat then NaN
  else
    let meanx := fdiv (fsum xs) (Fin (INR nobs)) in
    let meany := fdiv (fsum ys) (Fin (INR nobs)) in
    let dx := map (fun v => fsub v meanx) xs in
    let dy := map (fun v => fsub v meany) ys in
    let ssqdm_x := fsum (zip_with fmul dx dx) in
    let ssqdm_y := fsum (zip_with fmul dy dy) in
    let covxy := fsum (zip_with fmul dx dy) in
    let divisor := fsqrt (fmul ssqdm_x ssqdm_y) in
    if fneq0 divisor then fdiv covxy divisor else NaN.

(** Entry [(i, j)] of the correlation matrix.  pandas computes the entries
    with [j <= i] and stores each one at [(i, j)] and at [(j, i)]. *)
Definition corr_entry (cols : list (string * list float)) (i j : nat) : float :=
  pearson (snd (nth (Nat.max i j) cols (EmptyString, [])))
          (snd (nth (Nat.min i j) cols (EmptyString, []))).

(** [frame.corr()] (line 351, on the ticker columns). *)
Definition corr (fr : Frame) : list (list float) :=
  let k := length (fcols fr) in
  map (fun i => map (fun j => corr_entry (fcols fr) i j) (seq 0 k)) (seq 0 k).

Record PortfolioView : Type := mkPortfolioView {
  portfolio_total_return : float;
  portfolio_volatility : float;
  portfolio_sharpe : float;
  portfolio_max_dd : float;
  correlation : list (list float)
}.

(** What the tab shows: the analysis, one of the two notices of lines
    363-366, or the exception that ends the script run. *)
Inductive tab3 : Type :=
| Analysis (v : PortfolioView)
| NeedTwoStocks
| NoStockData
| Crash (e : exn).

Definition portfolio_analysis (stock_data : list (string * DataFrame)) : tab3 :=
  match stock_data with
  | [] => NoStockData
  | [_] => NeedTwoStocks
  | _ :: _ :: _ =>
      let fr := portfolio_returns stock_data in
      let portfolio := portfolio_column stock_data in
      let cumulative_returns := cumprod (map (fadd (Fin 1)) (svalues portfolio)) in
      let portfolio_daily := svalues (dropna portfolio) in
      match iloc_last cumulative_returns with
      | Raises e => Crash e
      | Returns c =>
          Analysis
            {| portfolio_total_return := fmul (fsub c (Fin 1)) (Fin 100);
               portfolio_volatility := volatility_of portfolio_daily;
               portfolio_sharpe := sharpe_of portfolio_daily;
               portfolio_max_dd := max_drawdown_of portfolio_daily;
               correlation := corr fr |}
      end
  end.

(** ** The ticker input (line 50)

    Text is modelled on ASCII: [is_space] is [str.isspace] and
    [upper_char] is [str.upper] on the codes below 128. *)

Definition is_space (c : ascii) : bool :=
  let n := nat_of_ascii c in
  (((9 <=? n) && (n <=? 13)) || ((28 <=? n) && (n <=? 32)))%nat%bool.

Definition upper_char (c : ascii) : ascii :=
  let n := nat_of_ascii c in
  if ((97 <=? n) && (n <=? 122))%nat%bool then ascii_of_nat (n - 32) else c.

Definition is_ascii (c : ascii) : bool := (nat_of_ascii c <? 128)%nat.

Fixpoint str_all (p : ascii -> bool) (s : string) : bool :=
  match s with
  | EmptyString => true
  | String c s' => (p c && str_all p s')%bool
  end.

(** [s.upper()] *)
Fixpoint upper (s : string) : string :=
  match s with
  | EmptyString => EmptyString
  | String c s' => String (upper_char c) (upper s')
  end.

(** [s.lstrip()], [s.rstrip()] and [s.strip()] *)
Fixpoint lstrip (s : string) : string :=
  match s with
  | EmptyString => EmptyString
  | String c s' => if is_space c then lstrip s' else s
  end.

Fixpoint rstrip (s : string) : string :=
  match s with
  | EmptyString => EmptyString
  | String c s' =>
      match rstrip s' with
      | EmptyString => if is_space c then EmptyString else String c EmptyString
      | String d r => String c (String d r)
      end
  end.

Definition strip (s : string) : string := rstrip (lstrip s).

(** [s.split(sep)] for a one-character separator: one piece more than
    there are separators, the empty text giving one empty piece. *)
Fixpoint split_on (sep : ascii) (s : string) : list string :=
  match s with
  | EmptyString => [EmptyString]
  | String c s' =>
      if Ascii.eqb c sep then EmptyString :: split_on sep s'
      else match split_on sep s' with
           | [] => [String c EmptyString]
           | w :: ws => String c w :: ws
           end
  end.

(** [sep.join(l)] *)
Fixpoint join (sep : string) (l : list string) : string :=
  match l with
  | [] => EmptyString
  | [s] => s
  | s :: l' => (s ++ sep ++ join sep l')%string
  end.

(** Python's truth value of a string. *)
Definition nonempty (s : string) : bool :=
  match s with EmptyString => false | String _ _ => true end.

(** Line 50:
    [[s.strip().upper() for s in stock_input.split(",") if s.strip()]]. *)
Definition selected_stocks (stock_input : string) : list string :=
  map (fun s => upper (strip s))
      (filter (fun s => nonempty (strip s)) (split_on ","%char stock_input)).

Definition default_stocks : list string :=
  ["AAPL"%string; "MSFT"%string; "GOOGL"%string].

(** ** Fetching the frames (lines 78-105 and 153-161) *)

(** [fetch_stock_data], given what [yf.download] does for the ticker: an
    exception or an empty frame gives [None].  The renaming of a lower-case
    [close] column and the flattening of two-level column names act on the
    labels of the columns, which the row type fixes. *)
Definition fetch_stock_data (download : outcome DataFrame) : option DataFrame :=
  match download with
  | Raises _ => None
  | Returns [] => None
  | Returns (r :: df) => Some (r :: df)
  end.

(** The loop of lines 157-162 from a dict [stock_data]: a ticker enters
    the dict when its data is not [None] and not empty.  The result of
    [fetch_stock_data] is cached, so within a run the download is a function
    of the ticker. *)
Fixpoint collect (download : string -> outcome DataFrame) (tickers : list string)
         (stock_data : list (string * DataFrame)) : list (string * DataFrame) :=
  match tickers with
  | [] => stock_data
  | ticker :: rest =>
      let data := fetch_stock_data (download ticker) in
      collect download rest
        match data with
        | Some (r :: df) => dict_set ticker (r :: df) stock_data
        | _ => stock_data
        end
  end.

(** Lines 153-162. *)
Definition stock_data_of (download : string -> outcome DataFrame)
           (tickers : list string) : list (string * DataFrame) :=
  collect download tickers [].

(** ** The overview and performance tabs (lines 175-198 and 272) *)

(** [st.columns(min(len(stock_data), 3))] and [col_idx = idx % 3]. *)
Definition overview_columns (stock_data : list (string * DataFrame)) : nat :=
  Nat.min (length stock_data) 3.

Definition col_idx (idx : nat) : nat := idx mod 3.

(** Line 198: [(df['Close'] / df['Close'].iloc[0]) * 100]; [iloc[0]] of a
    frame without rows raises. *)
Definition normalized (df : DataFrame) : outcome (list float) :=
  match df with
  | [] => Raises IndexError
  | r0 :: _ =>
      Returns (map (fun r => fmul (fdiv (Fin (Close r)) (Fin (Close r0))) (Fin 100)) df)
  end.

(** Lines 302 and 310 for one column of the frame of returns:
    [(1 + column).cumprod() * 100]. *)
Definition cumulative_line (col : list float) : list float :=
  map (fun c => fmul c (Fin 100)) (cumprod (map (fadd (Fin 1)) col)).

(** * Reference definitions on real numbers

    Where every value involved is finite, the float computations above
    agree with the following functions on [R]; the properties are stated
    with them. *)

(** The closes of a frame, in row order. *)
Definition prices (df : DataFrame) : list R := map Close df.

(** The data model takes closes to be positive; nonzero is what the
    quotients below need. *)
Definition nonzero_prices (df : DataFrame) : Prop :=
  Forall (fun r => Close r <> 0) df.

Definition positive_prices (df : DataFrame) : Prop :=
  Forall (fun r => 0 < Close r) df.

(** The returns as real numbers: each close over the one before, minus
    one. *)
Fixpoint returns_from (prev : R) (p : list R) : list R :=
  match p with
  | [] => []
  | x :: p' => (x / prev - 1) :: returns_from x p'
  end.

Definition returns (df : DataFrame) : list R :=
  match prices df with
  | [] => []
  | p0 :: p => returns_from p0 p
  end.

(** Sum and mean of a list of reals, accumulated from the left as
    [fsum] is. *)
Definition rsum (l : list R) : R := fold_left Rplus l 0.

Definition rmean (l : list R) : R := rsum l / INR (length l).

(** The sample standard deviation, with the N-1 denominator. *)
Definition sample_std (l : list R) : R :=
  sqrt (rsum (map (fun x => (rmean l - x) * (rmean l - x)) l) / (INR (length l) - 1)).

(** The wealth index and its drawdowns as real numbers. *)
Fixpoint rcumprod_from (acc : R) (l : list R) : list R :=
  match l with
  | [] => []
  | x :: l' => acc * x :: rcumprod_from (acc * x) l'
  end.

(** [W[0] = 1 + r[0]], [W[t] = W[t-1] * (1 + r[t])]. *)
Definition wealth (r : list R) : list R :=
  rcumprod_from 1 (map (fun x => 1 + x) r).

(** [D[t] = (W[t] - M[t]) / M[t]] where [M[t]] is the greatest of [m] and
    [W[0..t]]. *)
Fixpoint rdrawdown_from (m : R) (w : list R) : list R :=
  match w with
  | [] => []
  | x :: w' => (x - Rmax m x) / Rmax m x :: rdrawdown_from (Rmax m x) w'
  end.

(** The drawdowns of a wealth index: the running maximum starts at its
    first value. *)
Definition rdrawdown (w : list R) : list R :=
  match w with
  | [] => []
  | x :: w' => (x - x) / x :: rdrawdown_from x w'
  end.

Fixpoint nondecreasing_from (a : R) (l : list R) : Prop :=
  match l with
  | [] => True
  | x :: l' => a <= x /\ nondecreasing_from x l'
  end.

(** Each value is at least the one before it. *)
Definition nondecreasing (l : list R) : Prop :=
  match l with
  | [] => True
  | x :: l' => nondecreasing_from x l'
  end.

(** The least value of a list, 0 for the empty list. *)
Definition rmin_list (l : list R) : R :=
  match l with
  | [] => 0
  | x :: l' => fold_left Rmin l' x
  end.

(** Insertion sort on reals, the counterpart of [sort]. *)
Fixpoint rinsert (x : R) (l : list R) : list R :=
  match l with
  | [] => [x]
  | y :: l' => if Rle_dec x y then x :: l else y :: rinsert x l'
  end.

Fixpoint rsort (l : list R) : list R :=
  match l with
  | [] => []
  | x :: l' => rinsert x (rsort l')
  end.

(** The sum of squared deviations from the mean. *)
Definition ssqdm (l : list R) : R :=
  rsum (map (fun v => (v - rmean l) * (v - rmean l)) l).

(** Column [i] of a frame. *)
Definition column (fr : Frame) (i : nat) : list float :=
  snd (nth i (fcols fr) (EmptyString, [])).

(** Entry [(i, j)] of the matrix [frame.corr()] returns. *)
Definition corr_at (fr : Frame) (i j : nat) : float :=
  nth j (nth i (corr fr) []) NaN.

(** The policy the specification words: a timestamp enters the portfolio
    series only if every constituent has a return at it. *)
Definition inner_join_policy (stock_data : list (string * DataFrame)) : Prop :=
  forall t : Z,
    In t (labels (dropna (portfolio_column stock_data))) ->
    forall e, In e stock_data -> In t (labels (daily_returns (snd e))).

(** The frame with every close multiplied by [c]: the same prices in
    another unit. *)
Definition rescale (c : R) (df : DataFrame) : DataFrame :=
  map (fun r => mkRow (stamp r) (c * Close r)) df.

(** The inner product of two lists of deviations. *)
Definition dot (a b : list R) : R :=
  rsum (map (fun p => fst p * snd p) (combine a b)).

(** A column without infinities: each value is a number or missing. *)
Definition finite_or_missing (c : list float) : Prop :=
  Forall (fun v => match v with Fin _ | NaN => True | _ => False end) c.

(** The text holds no comma. *)
Definition no_comma (s : string) : bool :=
  str_all (fun c => negb (Ascii.eqb c ","%char)) s.

(** A ticker as line 50 produces them: not empty, without comma, stripped
    and in upper case. *)
Definition clean_ticker (t : string) : Prop :=
  t <> EmptyString /\ no_comma t = true /\ strip t = t /\ upper t = t.

(** What the loop of lines 157-162 keeps true of the dict: distinct keys,
    each one a ticker seen so far with the non-empty frame fetched for
    it. *)
Definition well_fetched (download : string -> outcome DataFrame)
           (tickers : list string) (stock_data : list (string * DataFrame)) : Prop :=
  NoDup (map fst stock_data) /\
  forall k d, In (k, d) stock_data ->
    In k tickers /\ fetch_stock_data (download k) = Some d /\ d <> [].

(** Every column of the frame has one value per index entry. *)
Definition rectangular (fr : Frame) : Prop :=
  Forall (fun c => length (snd c) = length (findex fr)) (fcols fr).

(** * Sample frames *)

Definition sample_frame : DataFrame :=
  [mkRow 1 100; mkRow 2 110; mkRow 3 121].

Definition detour_frame : DataFrame :=
  [mkRow 1 100; mkRow 2 90; mkRow 3 121].

Definition dip_frame : DataFrame :=
  [mkRow 1 100; mkRow 2 110; mkRow 3 99].

Definition flat_frame : DataFrame :=
  [mkRow 1 100; mkRow 2 100; mkRow 3 100].

Definition single_row_frame : DataFrame := [mkRow 1 100].

Definition gap_frame : DataFrame := [mkRow 1 50; mkRow 3 55].

Definition gap_portfolio : list (string * DataFrame) :=
  [("AAA"%string, sample_frame); ("BBB"%string, gap_frame)].

Definition flat_portfolio : list (string * DataFrame) :=
  [("AAA"%string, flat_frame); ("BBB"%string, detour_frame)].

Definition flat_returns : Frame :=
  {| findex := [1%Z; 2%Z; 3%Z];
     fcols := [("AAA"%string, [NaN; Fin (100 / 100 - 1); Fin (100 / 100 - 1)]);
               ("BBB"%string, [NaN; Fin (90 / 100 - 1); Fin (121 / 90 - 1)])] |}.

(** * Properties *)

(** ** Float operations on finite values *)

Lemma fdiv_fin (x y : R) : y <> 0 -> fdiv (Fin x) (Fin y) = Fin (x / y).
Proof.
  intros Hy. unfold fdiv. destruct (Req_dec_T y 0) as [E | _]; [contradiction | reflexivity].
Qed.

Lemma fdiv_zero_zero : fdiv (Fin 0) (Fin 0) = NaN.
Proof.
  unfold fdiv. destruct (Req_dec_T 0 0) as [_ | N]; [| contradiction N; reflexivity].
  unfold inf_signed. destruct (total_order_T 0 0) as [[L | E] | G]; try reflexivity; lra.
Qed.

Lemma fsqrt_fin (x : R) : 0 <= x -> fsqrt (Fin x) = Fin (sqrt x).
Proof.
  intros Hx. unfold fsqrt. destruct (Rlt_dec x 0); [lra | reflexivity].
Qed.

Lemma fneq0_false (a : float) : fneq0 a = false <-> a = Fin 0.
Proof.
  destruct a as [x | | |]; unfold fneq0; try (split; discriminate).
  destruct (Req_dec_T x 0) as [E | N]; split; intros H; try reflexivity; try discriminate.
  - now subst.
  - injection H as H. contradiction.
Qed.

Lemma fleb_fin (x y : R) : fleb (Fin x) (Fin y) = true <-> x <= y.
Proof.
  unfold fleb. destruct (Rle_dec x y); split; intros; try assumption; try reflexivity;
    try discriminate; contradiction.
Qed.

Lemma fmax_fin (x y : R) : fmax (Fin x) (Fin y) = Fin (Rmax x y).
Proof.
  unfold fmax, Rmax, fleb. destruct (Rle_dec x y); reflexivity.
Qed.

Lemma fmin_fin (x y : R) : fmin (Fin x) (Fin y) = Fin (Rmin x y).
Proof.
  unfold fmin, Rmin, fleb. destruct (Rle_dec x y); reflexivity.
Qed.

Lemma nth_map_Fin (l : list R) (k : nat) (d : float) :
  (k < length l)%nat -> nth k (map Fin l) d = Fin (nth k l 0).
Proof.
  intros Hk. rewrite <- (map_nth Fin). apply nth_indep. now rewrite length_map.
Qed.

(** ** The finite fragment: returns of a frame whose closes are not zero *)

Lemma positive_nonzero (df : DataFrame) : positive_prices df -> nonzero_prices df.
Proof.
  unfold positive_prices, nonzero_prices. apply Forall_impl. intros r Hr. lra.
Qed.

Lemma returns_from_length (prev : R) (p : list R) :
  length (returns_from prev p) = length p.
Proof.
  revert prev. induction p as [| x p IH]; intros prev; simpl; [reflexivity |].
  now rewrite IH.
Qed.

Lemma returns_from_nth (p : list R) : forall (prev : R) (k : nat),
  (k < length p)%nat ->
  nth k (returns_from prev p) 0 = nth k p 0 / nth k (prev :: p) 0 - 1.
Proof.
  induction p as [| x p IH]; intros prev k Hk; simpl in Hk; [lia |].
  destruct k as [| k]; [reflexivity |].
  simpl returns_from. change (nth (S k) (?a :: ?l) 0) with (nth k l 0).
  apply IH. lia.
Qed.

Lemma pct_change_from_fin (rest : DataFrame) : forall prev : R,
  prev <> 0 -> nonzero_prices rest ->
  pct_change_from (Fin prev) (close_col rest) =
  combine (map stamp rest) (map Fin (returns_from prev (map Close rest))).
Proof.
  induction rest as [| r rest IH]; intros prev Hprev Hnz; [reflexivity |].
  inversion Hnz as [| ? ? Hr Hrest]; subst.
  simpl. rewrite fdiv_fin by assumption. unfold fsub. simpl.
  rewrite IH by assumption. reflexivity.
Qed.

Lemma dropna_fin (ts : list Z) (v : list R) :
  dropna (combine ts (map Fin v)) = combine ts (map Fin v).
Proof.
  revert v. induction ts as [| t ts IH]; intros [| x v]; simpl; try reflexivity.
  unfold dropna in IH. now rewrite IH.
Qed.

(** The return series of a frame with nonzero closes: one finite return
    per row after the first, under that row's timestamp. *)
Lemma daily_returns_fin (r0 : row) (rest : DataFrame) :
  nonzero_prices (r0 :: rest) ->
  daily_returns (r0 :: rest) =
  combine (map stamp rest) (map Fin (returns (r0 :: rest))).
Proof.
  intros Hnz. inversion Hnz as [| ? ? H0 Hrest]; subst.
  unfold daily_returns, returns. simpl.
  rewrite pct_change_from_fin by assumption.
  apply dropna_fin.
Qed.

Lemma svalues_combine (ts : list Z) (v : list float) :
  length ts = length v -> svalues (combine ts v) = v.
Proof.
  revert v. induction ts as [| t ts IH]; intros [| x v] H; simpl in *;
    try reflexivity; try discriminate.
  unfold svalues in IH. rewrite IH; [reflexivity | lia].
Qed.

Lemma labels_combine (ts : list Z) (v : list float) :
  length ts = length v -> labels (combine ts v) = ts.
Proof.
  revert v. induction ts as [| t ts IH]; intros [| x v] H; simpl in *;
    try reflexivity; try discriminate.
  unfold labels in IH. rewrite IH; [reflexivity | lia].
Qed.

Lemma returns_length (df : DataFrame) : length (returns df) = (length df - 1)%nat.
Proof.
  destruct df as [| r0 rest]; [reflexivity |].
  unfold returns, prices. simpl. rewrite returns_from_length, length_map. lia.
Qed.

Lemma daily_values_fin (df : DataFrame) :
  nonzero_prices df -> svalues (daily_returns df) = map Fin (returns df).
Proof.
  intros Hnz. destruct df as [| r0 rest]; [reflexivity |].
  rewrite daily_returns_fin by assumption.
  apply svalues_combine.
  rewrite !length_map, returns_length. simpl length. lia.
Qed.

Lemma daily_labels_fin (df : DataFrame) :
  nonzero_prices df -> labels (daily_returns df) = tl (map stamp df).
Proof.
  intros Hnz. destruct df as [| r0 rest]; [reflexivity |].
  rewrite daily_returns_fin by assumption. simpl tl.
  apply labels_combine.
  rewrite !length_map, returns_length. simpl length. lia.
Qed.

(** ** C2: the return series *)

(** C2.  The return series of a price frame (closes not zero, as the data
    model has them) of length at least 2 has one point less than the frame,
    its k-th value is [(p[k+1] - p[k]) / p[k]] and carries the timestamp of
    row k+1; a frame of length 0 or 1 has the empty return series. *)
Theorem C2_return_series (df : DataFrame) :
  nonzero_prices df ->
  ((length df <= 1)%nat -> daily_returns df = []) /\
  ((2 <= length df)%nat ->
   length (daily_returns df) = (length df - 1)%nat /\
   forall k, (k < length df - 1)%nat ->
     nth k (daily_returns df) (0%Z, NaN) =
     (nth (S k) (map stamp df) 0%Z,
      Fin ((nth (S k) (prices df) 0 - nth k (prices df) 0) / nth k (prices df) 0))).
Proof.
  intros Hnz. split.
  - intros Hlen. destruct df as [| r0 [| r1 rest]]; simpl in Hlen; try lia; reflexivity.
  - intros Hlen. destruct df as [| r0 rest]; [simpl in Hlen; lia |].
    rewrite daily_returns_fin by assumption.
    assert (Hl : length (map stamp rest) = length (map Fin (returns (r0 :: rest)))).
    { rewrite !length_map, returns_length. simpl length. lia. }
    split.
    + rewrite length_combine, <- Hl, Nat.min_id, length_map. simpl. lia.
    + intros k Hk. simpl in Hk.
      rewrite (combine_nth _ _ k 0%Z NaN Hl). f_equal.
      assert (Hk' : (k < length (map Close rest))%nat) by (rewrite length_map; lia).
      unfold returns, prices. simpl map.
      rewrite nth_map_Fin by (rewrite returns_from_length; exact Hk').
      f_equal. rewrite returns_from_nth by exact Hk'.
      change (nth (S k) (Close r0 :: map Close rest) 0) with (nth k (map Close rest) 0).
      assert (Hd : nth k (Close r0 :: map Close rest) 0 <> 0).
      { change (Close r0 :: map Close rest) with (map Close (r0 :: rest)).
        rewrite (nth_indep _ 0 (Close r0)) by (rewrite length_map; simpl; lia).
        rewrite map_nth.
        unfold nonzero_prices in Hnz. rewrite Forall_forall in Hnz.
        apply Hnz. apply nth_In. simpl. lia. }
      field. exact Hd.
Qed.

Lemma sample_frame_positive : positive_prices sample_frame.
Proof. repeat constructor; simpl; lra. Qed.

Lemma sample_frame_returns_length : length (daily_returns sample_frame) = 2%nat.
Proof.
  pose proof (positive_nonzero _ sample_frame_positive) as Hnz.
  unfold sample_frame in *. rewrite daily_returns_fin by exact Hnz. reflexivity.
Qed.

Lemma C2_return_series_witness :
  length (daily_returns sample_frame) = 2%nat /\
  nth 0 (daily_returns sample_frame) (0%Z, NaN) = (2%Z, Fin ((110 - 100) / 100)).
Proof.
  assert (Hnz : nonzero_prices sample_frame)
    by (repeat constructor; simpl; lra).
  destruct (C2_return_series sample_frame Hnz) as [_ H].
  destruct (H ltac:(simpl; lia)) as [Hlen Hnth].
  split; [exact Hlen | apply (Hnth 0%nat); simpl; lia].
Defined.

(** ** Statistics on finite values *)

Lemma valid_fin (l : list R) : valid (map Fin l) = map Fin l.
Proof.
  unfold valid. induction l as [| x l IH]; [reflexivity |]. simpl. now rewrite IH.
Qed.

Lemma fold_fadd_fin (l : list R) : forall a : R,
  fold_left fadd (map Fin l) (Fin a) = Fin (fold_left Rplus l a).
Proof.
  induction l as [| x l IH]; intros a; [reflexivity |]. simpl. apply IH.
Qed.

Lemma fsum_fin (l : list R) : fsum (map Fin l) = Fin (rsum l).
Proof. apply fold_fadd_fin. Qed.

Lemma fold_Rplus_acc (l : list R) : forall a : R,
  fold_left Rplus l a = a + fold_left Rplus l 0.
Proof.
  induction l as [| x l IH]; intros a; simpl; [lra |].
  rewrite (IH (a + x)), (IH (0 + x)). lra.
Qed.

Lemma rsum_cons (x : R) (l : list R) : rsum (x :: l) = x + rsum l.
Proof.
  unfold rsum. simpl. rewrite fold_Rplus_acc. lra.
Qed.

Lemma rsum_nonneg (l : list R) : Forall (fun x => 0 <= x) l -> 0 <= rsum l.
Proof.
  induction 1 as [| x l Hx _ IH]; [unfold rsum; simpl; lra |].
  rewrite rsum_cons. lra.
Qed.

Lemma rsum_squares_nonneg (c : R) (l : list R) :
  0 <= rsum (map (fun x => (c - x) * (c - x)) l).
Proof.
  apply rsum_nonneg. apply Forall_forall. intros y Hy.
  apply in_map_iff in Hy. destruct Hy as [x [<- _]].
  exact (Rle_0_sqr (c - x)).
Qed.

Lemma INR_length_pos {A : Type} (l : list A) : l <> [] -> 0 < INR (length l).
Proof.
  intros Hl. destruct l as [| x l]; [contradiction |].
  apply lt_0_INR. simpl. lia.
Qed.

Lemma mean_fin (l : list R) : l <> [] -> mean (map Fin l) = Fin (rmean l).
Proof.
  intros Hl. unfold mean, rmean. rewrite valid_fin, fsum_fin, length_map.
  apply fdiv_fin. pose proof (INR_length_pos l Hl). lra.
Qed.

Lemma mean_empty : mean [] = NaN.
Proof. unfold mean. simpl. apply fdiv_zero_zero. Qed.

Lemma std_few (v : list float) : (length (valid v) <= 1)%nat -> std v = NaN.
Proof.
  intros H. unfold std. apply Nat.leb_le in H. now rewrite H.
Qed.

Lemma std_fin (l : list R) :
  (2 <= length l)%nat -> std (map Fin l) = Fin (sample_std l).
Proof.
  intros Hl. unfold std, sample_std, rmean.
  rewrite valid_fin, length_map, fsum_fin.
  destruct (Nat.leb_spec (length l) 1) as [H | _]; [lia |].
  assert (Hn : 2 <= INR (length l)) by (apply (le_INR 2); exact Hl).
  rewrite fdiv_fin by lra.
  rewrite map_map. simpl.
  rewrite <- (map_map (fun x => (rsum l / INR (length l) + - x) *
                                 (rsum l / INR (length l) + - x)) Fin).
  rewrite fsum_fin, fdiv_fin by lra.
  rewrite fsqrt_fin.
  - reflexivity.
  - apply Rmult_le_pos.
    + apply (rsum_squares_nonneg (rsum l / INR (length l))).
    + apply Rlt_le, Rinv_0_lt_compat. lra.
Qed.

(** ** C7: when [calculate_metrics] returns no record *)

(** C7.  [calculate_metrics] returns [None] exactly when the frame is
    [None] or has no row; a frame with at least one price point always
    yields a record. *)
Theorem C7_absent_iff_no_data (df : option DataFrame) :
  calculate_metrics df = None <-> (df = None \/ df = Some []).
Proof.
  split.
  - destruct df as [[| r0 rest] |]; simpl; intros H;
      [right; reflexivity | discriminate | left; reflexivity].
  - intros [-> | ->]; reflexivity.
Qed.

Lemma calculate_metrics_some (df : DataFrame) :
  df <> [] -> exists m, calculate_metrics (Some df) = Some m.
Proof.
  intros Hdf. destruct df as [| r0 rest]; [contradiction |].
  eexists. reflexivity.
Qed.

Lemma last_cons_default {A : Type} (l : list A) : forall x d : A,
  last (x :: l) d = last l x.
Proof.
  induction l as [| y l IH]; intros x d; [reflexivity |].
  change (last (x :: y :: l) d) with (last (y :: l) d).
  rewrite (IH y d), (IH y x). reflexivity.
Qed.

Lemma last_map_default {A B : Type} (f : A -> B) (l : list A) : forall d : A,
  f (last l d) = last (map f l) (f d).
Proof.
  induction l as [| y l IH]; intros d; [reflexivity |].
  simpl map. rewrite !last_cons_default. apply IH.
Qed.

Lemma calculate_metrics_fields (df : DataFrame) (m : Metrics) :
  calculate_metrics (Some df) = Some m ->
  let daily := svalues (daily_returns df) in
  current_price m = Fin (last (prices df) 0) /\
  total_return m =
    fmul (fdiv (fsub (Fin (last (prices df) 0)) (Fin (hd 0 (prices df))))
               (Fin (hd 0 (prices df)))) (Fin 100) /\
  volatility m = volatility_of daily /\
  sharpe_ratio m = sharpe_of daily /\
  max_drawdown m = max_drawdown_of daily.
Proof.
  destruct df as [| r0 rest]; [discriminate |].
  intros H. injection H as <-. cbv zeta. cbn [current_price total_return volatility
    sharpe_ratio max_drawdown].
  assert (Hlast : Close (last rest r0) = last (prices (r0 :: rest)) 0).
  { unfold prices. simpl map. rewrite last_cons_default. apply last_map_default. }
  rewrite Hlast. repeat split; reflexivity.
Qed.

(** ** C10: total return depends on the endpoints only *)

(** C10.  Two non-empty price frames with the same first close and the
    same last close have the same total return. *)
Theorem C10_total_return_endpoints (df1 df2 : DataFrame) (m1 m2 : Metrics) :
  calculate_metrics (Some df1) = Some m1 ->
  calculate_metrics (Some df2) = Some m2 ->
  hd 0 (prices df1) = hd 0 (prices df2) ->
  last (prices df1) 0 = last (prices df2) 0 ->
  total_return m1 = total_return m2.
Proof.
  intros H1 H2 Hhd Hlast.
  destruct (calculate_metrics_fields df1 m1 H1) as [_ [-> _]].
  destruct (calculate_metrics_fields df2 m2 H2) as [_ [-> _]].
  now rewrite Hhd, Hlast.
Qed.

Lemma C10_total_return_endpoints_witness :
  exists m1 m2,
    calculate_metrics (Some sample_frame) = Some m1 /\
    calculate_metrics (Some detour_frame) = Some m2 /\
    total_return m1 = total_return m2.
Proof.
  eexists. eexists. split; [reflexivity |]. split; [reflexivity |].
  apply (C10_total_return_endpoints sample_frame detour_frame);
    reflexivity.
Defined.

(** ** C3 and C4: Sharpe ratio and volatility *)

Lemma fneq0_true (x : R) : x <> 0 -> fneq0 (Fin x) = true.
Proof.
  intros Hx. unfold fneq0. destruct (Req_dec_T x 0); [contradiction | reflexivity].
Qed.

Lemma excess_fin (c : R) (l : list R) :
  map (fun x => fsub x (Fin c)) (map Fin l) = map Fin (map (fun x => x - c) l).
Proof. rewrite !map_map. reflexivity. Qed.

Lemma sharpe_of_zero_std (r : list float) : std r = Fin 0 -> sharpe_of r = Fin 0.
Proof.
  intros H. unfold sharpe_of. apply fneq0_false in H. now rewrite H.
Qed.

Lemma sharpe_of_nonzero_std (r : list float) :
  std r <> Fin 0 ->
  sharpe_of r =
  fmul (fdiv (mean (map (fun x => fsub x (Fin (risk_free_rate / 252))) r)) (std r))
       sqrt252.
Proof.
  intros H. unfold sharpe_of. destruct (fneq0 (std r)) eqn:E; [reflexivity |].
  apply fneq0_false in E. contradiction.
Qed.

(** C3.  The Sharpe ratio of the record is
    [mean(r - 0.02/252) / std(r) * sqrt(252)] when the sample standard
    deviation of the return series is not zero, and exactly 0 when it is
    zero; no branch divides by zero or raises.  For a frame of at least
    three nonzero closes the standard deviation is the real number
    [sample_std] and the ratio is the real quotient. *)
Theorem C3_sharpe_ratio (df : DataFrame) (m : Metrics) :
  calculate_metrics (Some df) = Some m ->
  let r := svalues (daily_returns df) in
  (std r = Fin 0 -> sharpe_ratio m = Fin 0) /\
  (std r <> Fin 0 ->
   sharpe_ratio m =
   fmul (fdiv (mean (map (fun x => fsub x (Fin (2 / 100 / 252))) r)) (std r))
        (Fin (sqrt 252))) /\
  (nonzero_prices df -> (3 <= length df)%nat ->
   std r = Fin (sample_std (returns df)) /\
   (sample_std (returns df) <> 0 ->
    sharpe_ratio m =
    Fin (rmean (map (fun x => x - 2 / 100 / 252) (returns df))
         / sample_std (returns df) * sqrt 252))).
Proof.
  intros Hm r.
  destruct (calculate_metrics_fields df m Hm) as [_ [_ [_ [Hs _]]]].
  fold r in Hs. rewrite Hs.
  split; [apply sharpe_of_zero_std |].
  split; [apply sharpe_of_nonzero_std |].
  intros Hnz Hlen.
  assert (Hr : r = map Fin (returns df)) by (apply daily_values_fin; exact Hnz).
  assert (Hl : (2 <= length (returns df))%nat) by (rewrite returns_length; lia).
  assert (Hstd : std r = Fin (sample_std (returns df)))
    by (rewrite Hr; apply std_fin; exact Hl).
  split; [exact Hstd |].
  intros Hs0.
  rewrite sharpe_of_nonzero_std by (rewrite Hstd; intros E; injection E as E; contradiction).
  rewrite Hstd, Hr. unfold risk_free_rate. rewrite excess_fin, mean_fin.
  - rewrite fdiv_fin by exact Hs0. reflexivity.
  - intros E. apply (f_equal (@length R)) in E. rewrite length_map in E.
    simpl in E. lia.
Qed.

Lemma C3_sharpe_ratio_witness :
  exists m,
    calculate_metrics (Some sample_frame) = Some m /\
    (std (svalues (daily_returns sample_frame)) = Fin 0 -> sharpe_ratio m = Fin 0).
Proof.
  eexists. split; [reflexivity |].
  apply (C3_sharpe_ratio sample_frame _ eq_refl).
Defined.

(** C4.  When the frame yields at least two returns, the annualised
    volatility is the sample standard deviation (N-1 denominator) of the
    returns times [sqrt 252] times 100; when it yields fewer than two, the
    volatility is [NaN], the missing-value marker, not a number. *)
Theorem C4_volatility (df : DataFrame) (m : Metrics) :
  calculate_metrics (Some df) = Some m ->
  (nonzero_prices df -> (2 <= length (daily_returns df))%nat ->
   volatility m = Fin (sample_std (returns df) * sqrt 252 * 100)) /\
  ((length (daily_returns df) < 2)%nat -> volatility m = NaN).
Proof.
  intros Hm.
  destruct (calculate_metrics_fields df m Hm) as [_ [_ [Hv _]]].
  cbv zeta in Hv. rewrite Hv. unfold volatility_of. split.
  - intros Hnz Hlen.
    assert (Hl : (2 <= length (returns df))%nat).
    { rewrite <- (length_map Fin), <- daily_values_fin by exact Hnz.
      unfold svalues. now rewrite length_map. }
    rewrite daily_values_fin, std_fin by assumption. reflexivity.
  - intros Hlen. rewrite std_few; [reflexivity |].
    unfold valid, svalues.
    pose proof (filter_length_le notna (map snd (daily_returns df))) as Hle.
    rewrite length_map in Hle. lia.
Qed.

Lemma C4_volatility_witness :
  exists m,
    calculate_metrics (Some sample_frame) = Some m /\
    volatility m = Fin (sample_std (returns sample_frame) * sqrt 252 * 100).
Proof.
  eexists. split; [reflexivity |].
  apply (C4_volatility sample_frame _ eq_refl).
  - apply positive_nonzero, sample_frame_positive.
  - rewrite sample_frame_returns_length. lia.
Defined.

(** ** C5: maximum drawdown *)

Lemma cumprod_from_fin (l : list R) : forall acc : R,
  cumprod_from (Fin acc) (map Fin l) = map Fin (rcumprod_from acc l).
Proof.
  induction l as [| x l IH]; intros acc; [reflexivity |].
  simpl. now rewrite IH.
Qed.

Lemma cumulative_fin (r : list R) :
  cumprod (map (fadd (Fin 1)) (map Fin r)) = map Fin (wealth r).
Proof.
  unfold cumprod, wealth. rewrite map_map.
  rewrite <- (map_map (fun x => 1 + x) Fin). apply cumprod_from_fin.
Qed.

Lemma drawdown_from_fin (w : list R) : forall m : R,
  0 < m ->
  zip_with fdiv
    (zip_with fsub (map Fin w) (expanding_max_from (Fin m) (map Fin w)))
    (expanding_max_from (Fin m) (map Fin w)) =
  map Fin (rdrawdown_from m w).
Proof.
  induction w as [| x w IH]; intros m Hm; [reflexivity |].
  assert (Hmax : 0 < Rmax m x) by (pose proof (Rmax_l m x); lra).
  simpl. rewrite fmax_fin. simpl.
  rewrite fdiv_fin by lra. rewrite (IH (Rmax m x) Hmax). reflexivity.
Qed.

Lemma drawdown_fin (w : list R) :
  Forall (fun x => 0 < x) w ->
  zip_with fdiv (zip_with fsub (map Fin w) (expanding_max (map Fin w)))
    (expanding_max (map Fin w)) =
  map Fin (rdrawdown w).
Proof.
  intros Hw. destruct w as [| x w]; [reflexivity |].
  inversion Hw as [| ? ? Hx _]; subst.
  unfold expanding_max. simpl.
  rewrite fdiv_fin by lra. rewrite (drawdown_from_fin w x Hx). reflexivity.
Qed.

Lemma fold_fmin_fin (l : list R) : forall a : R,
  fold_left fmin (map Fin l) (Fin a) = Fin (fold_left Rmin l a).
Proof.
  induction l as [| x l IH]; intros a; [reflexivity |].
  simpl. rewrite fmin_fin. apply IH.
Qed.

Lemma smin_fin (l : list R) : l <> [] -> smin (map Fin l) = Fin (rmin_list l).
Proof.
  intros Hl. unfold smin. rewrite valid_fin.
  destruct l as [| x l]; [contradiction |]. simpl. apply fold_fmin_fin.
Qed.

Lemma fold_Rmin_le (l : list R) : forall a : R,
  fold_left Rmin l a <= a /\ Forall (fun x => fold_left Rmin l a <= x) l.
Proof.
  induction l as [| x l IH]; intros a; simpl; [split; [lra | constructor] |].
  destruct (IH (Rmin a x)) as [H1 H2].
  pose proof (Rmin_l a x). pose proof (Rmin_r a x).
  split; [lra |]. constructor; [lra | exact H2].
Qed.

Lemma fold_Rmin_in (l : list R) : forall a : R,
  fold_left Rmin l a = a \/ In (fold_left Rmin l a) l.
Proof.
  induction l as [| x l IH]; intros a; simpl; [left; reflexivity |].
  destruct (IH (Rmin a x)) as [H | H]; [| right; right; exact H].
  rewrite H. unfold Rmin. destruct (Rle_dec a x); [left | right; left]; reflexivity.
Qed.

(** The least of values that are all at most 0 is at most 0, and is 0
    exactly when all of them are. *)
Lemma rmin_list_nonpos (l : list R) :
  l <> [] -> Forall (fun x => x <= 0) l ->
  rmin_list l <= 0 /\ (rmin_list l = 0 <-> Forall (fun x => x = 0) l).
Proof.
  intros Hl Hall. destruct l as [| a l]; [contradiction |].
  inversion Hall as [| ? ? Ha Hl']; subst. simpl.
  destruct (fold_Rmin_le l a) as [H1 H2].
  split; [lra |]. split.
  - intros E. rewrite E in H1, H2. constructor; [lra |].
    rewrite Forall_forall in *. intros x Hx.
    specialize (H2 x Hx). specialize (Hl' x Hx). simpl in *. lra.
  - intros Hz. inversion Hz as [| ? ? Ea Hz']; subst.
    destruct (fold_Rmin_in l 0) as [E | E]; [exact E |].
    rewrite Forall_forall in Hz'. apply Hz'. exact E.
Qed.

Lemma rdrawdown_from_nonpos (w : list R) : forall m : R,
  0 < m -> Forall (fun x => x <= 0) (rdrawdown_from m w).
Proof.
  induction w as [| x w IH]; intros m Hm; simpl; constructor.
  - pose proof (Rmax_l m x). pose proof (Rmax_r m x).
    assert (Hinv : 0 < / Rmax m x) by (apply Rinv_0_lt_compat; lra).
    unfold Rdiv. nra.
  - apply IH. pose proof (Rmax_l m x). lra.
Qed.

Lemma rdrawdown_from_zero (w : list R) : forall m : R,
  0 < m ->
  (Forall (fun x => x = 0) (rdrawdown_from m w) <-> nondecreasing_from m w).
Proof.
  induction w as [| x w IH]; intros m Hm; simpl.
  - split; [trivial | constructor].
  - assert (Hmax : 0 < Rmax m x) by (pose proof (Rmax_l m x); lra).
    assert (Hd : (x - Rmax m x) / Rmax m x = 0 <-> m <= x).
    { split.
      - intros E. apply (f_equal (fun y => y * Rmax m x)) in E.
        unfold Rdiv in E. rewrite Rmult_assoc, Rinv_l, Rmult_1_r, Rmult_0_l in E by lra.
        pose proof (Rmax_l m x). lra.
      - intros Hle. rewrite Rmax_right by exact Hle.
        unfold Rdiv. rewrite Rminus_diag. apply Rmult_0_l. }
    split.
    + intros H. inversion H as [| ? ? E Hrest]; subst.
      apply Hd in E. split; [exact E |].
      rewrite Rmax_right in Hrest by exact E.
      apply (IH x); [lra | exact Hrest].
    + intros [Hle Hrest]. constructor; [apply Hd; exact Hle |].
      rewrite Rmax_right by exact Hle. apply (IH x); [lra | exact Hrest].
Qed.

Lemma rdrawdown_spec (w : list R) :
  w <> [] -> Forall (fun x => 0 < x) w ->
  rmin_list (rdrawdown w) <= 0 /\
  (rmin_list (rdrawdown w) = 0 <-> nondecreasing w).
Proof.
  intros Hw Hpos. destruct w as [| x w]; [contradiction |].
  inversion Hpos as [| ? ? Hx _]; subst.
  assert (H0 : (x - x) / x = 0).
  { unfold Rdiv. rewrite Rminus_diag. apply Rmult_0_l. }
  assert (Hall : Forall (fun y => y <= 0) (rdrawdown (x :: w))).
  { simpl. constructor; [lra | apply rdrawdown_from_nonpos; exact Hx]. }
  destruct (rmin_list_nonpos (rdrawdown (x :: w)) ltac:(discriminate) Hall) as [Hle Hiff].
  split; [exact Hle |].
  rewrite Hiff. simpl. rewrite <- (rdrawdown_from_zero w x Hx).
  split.
  - intros H. now inversion H.
  - intros H. constructor; assumption.
Qed.

Lemma returns_from_gt_minus_one (p : list R) : forall prev : R,
  0 < prev -> Forall (fun x => 0 < x) p ->
  Forall (fun x => 0 < 1 + x) (returns_from prev p).
Proof.
  induction p as [| x p IH]; intros prev Hprev Hp; simpl; constructor;
    inversion Hp as [| ? ? Hx Hp']; subst.
  - replace (1 + (x / prev - 1)) with (x / prev) by lra.
    apply Rdiv_lt_0_compat; assumption.
  - apply IH; assumption.
Qed.

Lemma rcumprod_from_pos (l : list R) : forall acc : R,
  0 < acc -> Forall (fun x => 0 < x) l ->
  Forall (fun x => 0 < x) (rcumprod_from acc l).
Proof.
  induction l as [| x l IH]; intros acc Hacc Hl; simpl; constructor;
    inversion Hl as [| ? ? Hx Hl']; subst.
  - apply Rmult_lt_0_compat; assumption.
  - apply IH; [apply Rmult_lt_0_compat |]; assumption.
Qed.

Lemma rcumprod_from_length (l : list R) (acc : R) :
  length (rcumprod_from acc l) = length l.
Proof.
  revert acc. induction l as [| x l IH]; intros acc; simpl; [reflexivity |].
  now rewrite IH.
Qed.

Lemma wealth_positive (df : DataFrame) :
  positive_prices df -> Forall (fun x => 0 < x) (wealth (returns df)).
Proof.
  intros Hpos. unfold wealth. apply rcumprod_from_pos; [lra |].
  destruct df as [| r0 rest]; [constructor |].
  inversion Hpos as [| ? ? H0 Hrest]; subst.
  unfold returns, prices. simpl map.
  pose proof (returns_from_gt_minus_one (map Close rest) (Close r0) H0) as H.
  rewrite Forall_map. apply H.
  rewrite Forall_map. exact Hrest.
Qed.

Lemma wealth_length (r : list R) : length (wealth r) = length r.
Proof. unfold wealth. now rewrite rcumprod_from_length, length_map. Qed.

Lemma max_drawdown_of_fin (r : list R) :
  r <> [] -> Forall (fun x => 0 < x) (wealth r) ->
  max_drawdown_of (map Fin r) = Fin (rmin_list (rdrawdown (wealth r)) * 100).
Proof.
  intros Hr Hpos. unfold max_drawdown_of, drawdown_of.
  rewrite cumulative_fin, drawdown_fin by exact Hpos.
  rewrite smin_fin; [reflexivity |].
  intros E. apply (f_equal (@length R)) in E.
  assert (Hw : wealth r <> []).
  { intros Ew. apply (f_equal (@length R)) in Ew. rewrite wealth_length in Ew.
    destruct r; [contradiction | discriminate]. }
  destruct (wealth r); [contradiction | discriminate].
Qed.

(** C5, as the code has it.  For a frame of at least two positive closes
    the maximum drawdown is a number [d <= 0], and [d = 0] exactly when the
    wealth index never decreases.  When the return series is empty the
    maximum drawdown is [NaN]: the minimum of no value is missing, and no
    zero is substituted. *)
Theorem C5_max_drawdown (df : DataFrame) (m : Metrics) :
  calculate_metrics (Some df) = Some m ->
  (daily_returns df = [] -> max_drawdown m = NaN) /\
  (positive_prices df -> (2 <= length df)%nat ->
   exists d : R,
     max_drawdown m = Fin d /\ d <= 0 /\
     (d = 0 <-> nondecreasing (wealth (returns df)))).
Proof.
  intros Hm.
  destruct (calculate_metrics_fields df m Hm) as [_ [_ [_ [_ Hd]]]].
  cbv zeta in Hd. rewrite Hd. split.
  - intros ->. reflexivity.
  - intros Hpos Hlen.
    assert (Hr : returns df <> []).
    { intros E. apply (f_equal (@length R)) in E. rewrite returns_length in E.
      simpl in E. lia. }
    pose proof (wealth_positive df Hpos) as Hw.
    rewrite daily_values_fin by (apply positive_nonzero; exact Hpos).
    rewrite max_drawdown_of_fin by assumption.
    assert (Hne : wealth (returns df) <> []).
    { intros E. apply (f_equal (@length R)) in E. rewrite wealth_length in E.
      destruct (returns df); [contradiction | discriminate]. }
    destruct (rdrawdown_spec (wealth (returns df)) Hne Hw) as [Hle Hiff].
    eexists. split; [reflexivity |]. split; [lra |].
    rewrite <- Hiff. split; intros; lra.
Qed.

Lemma C5_max_drawdown_witness :
  exists (m : Metrics) (d : R),
    calculate_metrics (Some sample_frame) = Some m /\
    max_drawdown m = Fin d /\ d <= 0.
Proof.
  eexists.
  destruct (C5_max_drawdown sample_frame _ eq_refl) as [_ H].
  destruct (H sample_frame_positive ltac:(simpl; lia)) as [d [Hd [Hle _]]].
  exists d. split; [reflexivity |]. split; assumption.
Defined.

(** The frame with one row has the empty return series, and its maximum
    drawdown is not 0. *)
Lemma C5_empty_returns_not_zero :
  exists m,
    calculate_metrics (Some single_row_frame) = Some m /\
    daily_returns single_row_frame = [] /\
    max_drawdown m <> Fin 0.
Proof.
  eexists. split; [reflexivity |]. split; [reflexivity |].
  simpl. discriminate.
Qed.

(** ** C6: value at risk *)

Lemma insert_sorted_fin (x : R) (l : list R) :
  insert_sorted (Fin x) (map Fin l) = map Fin (rinsert x l).
Proof.
  induction l as [| y l IH]; [reflexivity |].
  simpl. unfold fleb. destruct (Rle_dec x y); [reflexivity |].
  now rewrite IH.
Qed.

Lemma sort_fin (l : list R) : sort (map Fin l) = map Fin (rsort l).
Proof.
  induction l as [| x l IH]; [reflexivity |].
  simpl. rewrite IH. apply insert_sorted_fin.
Qed.

Lemma rinsert_perm (x : R) (l : list R) : Permutation (rinsert x l) (x :: l).
Proof.
  induction l as [| y l IH]; simpl; [apply Permutation_refl |].
  destruct (Rle_dec x y); [apply Permutation_refl |].
  eapply perm_trans; [apply perm_skip; exact IH | apply perm_swap].
Qed.

Lemma rsort_perm (l : list R) : Permutation (rsort l) l.
Proof.
  induction l as [| x l IH]; simpl; [constructor |].
  eapply perm_trans; [apply rinsert_perm | apply perm_skip; exact IH].
Qed.

Lemma rinsert_from (x : R) (l : list R) : forall a : R,
  a <= x -> nondecreasing_from a l -> nondecreasing_from a (rinsert x l).
Proof.
  induction l as [| y l IH]; intros a Hax Hl; simpl.
  - split; [exact Hax | exact I].
  - destruct Hl as [Hay Hl]. destruct (Rle_dec x y) as [Hxy | Hxy]; simpl.
    + repeat split; assumption.
    + split; [exact Hay |]. apply IH; [lra | exact Hl].
Qed.

Lemma rinsert_sorted (x : R) (l : list R) :
  nondecreasing l -> nondecreasing (rinsert x l).
Proof.
  destruct l as [| y l]; simpl; [trivial |].
  intros Hl. destruct (Rle_dec x y) as [Hxy | Hxy]; simpl.
  - split; assumption.
  - apply rinsert_from; [lra | exact Hl].
Qed.

Lemma rsort_sorted (l : list R) : nondecreasing (rsort l).
Proof.
  induction l as [| x l IH]; simpl; [exact I | apply rinsert_sorted; exact IH].
Qed.

Lemma lerp_fin (a b t : R) : lerp (Fin a) (Fin b) t = Fin (a + (b - a) * t).
Proof.
  unfold lerp. destruct (Rle_dec (1 / 2) t); simpl; f_equal; ring.
Qed.

Lemma existsb_isnan_fin (l : list R) : existsb isnan (map Fin l) = false.
Proof. induction l as [| x l IH]; [reflexivity | exact IH]. Qed.

(** The percentile of finite values: linear interpolation between the two
    closest ranks of the sorted values. *)
Lemma percentile_fin (l : list R) (q : nat) :
  l <> [] -> (q <= 100)%nat ->
  let n := length l in
  let k := (q * (n - 1))%nat in
  let lo := nth (k / 100) (rsort l) 0 in
  let hi := nth (Nat.min (k / 100 + 1) (n - 1)) (rsort l) 0 in
  percentile (map Fin l) q = Returns (Fin (lo + (hi - lo) * (INR (k mod 100) / 100))).
Proof.
  intros Hl Hq n k lo hi. unfold percentile.
  destruct l as [| x l']; [contradiction |].
  change (map Fin (x :: l')) with (Fin x :: map Fin l') at 1.
  cbv iota. rewrite existsb_isnan_fin, sort_fin, length_map.
  fold n. fold k.
  assert (Hn : (1 <= n)%nat) by (unfold n; simpl; lia).
  assert (Hlen : length (rsort (x :: l')) = n)
    by (apply Permutation_length, rsort_perm).
  assert (Hk : (k / 100 <= n - 1)%nat).
  { apply Nat.Div0.div_le_upper_bound. unfold k. nia. }
  rewrite !nth_map_Fin by (rewrite Hlen; lia).
  rewrite lerp_fin. reflexivity.
Qed.

(** For a frame with at least two nonzero closes, the value at risk is the
    5th percentile of the returns, by linear interpolation in the sorted
    returns, times 100. *)
Lemma var_95_value (df : DataFrame) :
  nonzero_prices df -> (2 <= length df)%nat ->
  let r := returns df in
  let k := (5 * (length r - 1))%nat in
  let lo := nth (k / 100) (rsort r) 0 in
  let hi := nth (Nat.min (k / 100 + 1) (length r - 1)) (rsort r) 0 in
  var_95 df = Returns (Fin ((lo + (hi - lo) * (INR (k mod 100) / 100)) * 100)) /\
  Permutation (rsort r) r /\ nondecreasing (rsort r).
Proof.
  intros Hnz Hlen r k lo hi.
  split; [| split; [apply rsort_perm | apply rsort_sorted]].
  unfold var_95. rewrite daily_values_fin by exact Hnz.
  rewrite percentile_fin; [reflexivity | | lia].
  intros E. apply (f_equal (@length R)) in E. rewrite returns_length in E.
  simpl in E. lia.
Qed.

(** C6 at the frame with a single row: [calculate_metrics] gives a
    record, the return series is empty, and the percentile call raises
    instead of yielding a missing value; the exception leaves the risk
    tab. *)
Theorem C6_var_95_single_row :
  calculate_metrics (Some single_row_frame) <> None /\
  daily_returns single_row_frame = [] /\
  var_95 single_row_frame = Raises IndexError /\
  risk_tab_var [("AAA"%string, single_row_frame)] = Some (Raises IndexError).
Proof. repeat split; try reflexivity. discriminate. Qed.

(** ** The frame of returns built at lines 295-298 *)

Lemma labels_pct_change_from (s : Series) (prev : float) :
  labels (pct_change_from prev s) = labels s.
Proof.
  revert prev. induction s as [| [t p] s IH]; intros prev; [reflexivity |].
  simpl. unfold labels in IH. now rewrite IH.
Qed.

Lemma labels_returns_col (df : DataFrame) : labels (returns_col df) = map stamp df.
Proof.
  unfold returns_col. destruct df as [| r0 rest]; [reflexivity |].
  simpl. f_equal.
  pose proof (labels_pct_change_from (close_col rest) (Fin (Close r0))) as H.
  unfold labels in *. rewrite H. unfold close_col. now rewrite map_map.
Qed.

Lemma returns_col_nonempty (df : DataFrame) : df <> [] -> returns_col df <> [].
Proof. destruct df; [contradiction | discriminate]. Qed.

Lemma returns_col_fin (r0 : row) (rest : DataFrame) :
  nonzero_prices (r0 :: rest) ->
  returns_col (r0 :: rest) =
  (stamp r0, NaN) :: combine (map stamp rest) (map Fin (returns (r0 :: rest))).
Proof.
  intros Hnz. inversion Hnz as [| ? ? H0 Hrest]; subst.
  unfold returns_col, returns. simpl.
  now rewrite pct_change_from_fin by assumption.
Qed.

Lemma dropna_returns_col (df : DataFrame) : dropna (returns_col df) = daily_returns df.
Proof. reflexivity. Qed.

Lemma setitem_first (fr : Frame) (key : string) (s : Series) :
  findex fr = [] -> s <> [] ->
  setitem fr key s =
  {| findex := labels s;
     fcols := dict_set key (svalues s)
                (map (fun c => (fst c, map (fun _ => NaN) s)) (fcols fr)) |}.
Proof.
  intros Hi Hs. unfold setitem. rewrite Hi.
  destruct s; [contradiction | reflexivity].
Qed.

Lemma setitem_next (fr : Frame) (key : string) (s : Series) :
  findex fr <> [] ->
  setitem fr key s =
  {| findex := findex fr;
     fcols := dict_set key (align s (findex fr)) (fcols fr) |}.
Proof.
  intros Hi. unfold setitem. destruct (findex fr); [contradiction | reflexivity].
Qed.

Lemma dict_set_fresh {A : Type} (key : string) (v : A) (d : list (string * A)) :
  ~ In key (map fst d) -> dict_set key v d = d ++ [(key, v)].
Proof.
  induction d as [| [k w] d IH]; intros Hk; [reflexivity |].
  simpl in *. destruct (String.eqb_spec key k) as [E | N].
  - exfalso. apply Hk. left. now symmetry.
  - rewrite IH; [reflexivity |]. intros Hin. apply Hk. now right.
Qed.

(** With distinct labels, the value at each label of a Series is the value
    stored beside it. *)
Lemma lookup_labels (s : Series) :
  NoDup (labels s) -> map (fun t => lookup t s) (labels s) = svalues s.
Proof.
  induction s as [| [t x] s IH]; intros Hnd; [reflexivity |].
  simpl in *. inversion Hnd as [| ? ? Hnotin Hnd']; subst.
  rewrite Z.eqb_refl. f_equal.
  rewrite <- (IH Hnd'). apply map_ext_in. intros t' Hin.
  destruct (Z.eqb_spec t' t) as [-> | _]; [contradiction | reflexivity].
Qed.

Lemma align_lookup (s : Series) (idx : list Z) :
  NoDup (labels s) -> align s idx = map (fun t => lookup t s) idx.
Proof.
  intros Hnd. unfold align.
  destruct (list_eq_dec Z.eq_dec (labels s) idx) as [<- | _]; [| reflexivity].
  symmetry. apply lookup_labels. exact Hnd.
Qed.

Lemma align_same (s : Series) : align s (labels s) = svalues s.
Proof.
  unfold align. destruct (list_eq_dec Z.eq_dec (labels s) (labels s)) as [_ | N];
    [reflexivity | contradiction N; reflexivity].
Qed.

Lemma portfolio_returns_fold (stock_data : list (string * DataFrame)) :
  portfolio_returns stock_data = fold_left add_ticker stock_data empty_frame.
Proof. reflexivity. Qed.

(** Once the frame has an index, each further ticker appends one column
    aligned to that index. *)
Lemma fold_add_ticker (rest : list (string * DataFrame)) : forall fr : Frame,
  findex fr <> [] ->
  NoDup (map fst (fcols fr) ++ map fst rest) ->
  fold_left add_ticker rest fr =
  {| findex := findex fr;
     fcols := fcols fr ++
              map (fun e => (fst e, align (returns_col (snd e)) (findex fr))) rest |}.
Proof.
  induction rest as [| [k d] rest IH]; intros fr Hi Hnd.
  - simpl. rewrite app_nil_r. now destruct fr.
  - simpl fold_left. unfold add_ticker at 2. simpl fst. simpl snd.
    rewrite setitem_next by exact Hi.
    assert (Hfresh : ~ In k (map fst (fcols fr))).
    { simpl in Hnd. apply NoDup_remove_2 in Hnd. intros Hin. apply Hnd.
      apply in_or_app. now left. }
    rewrite dict_set_fresh by exact Hfresh.
    rewrite IH.
    + simpl. rewrite <- app_assoc. reflexivity.
    + exact Hi.
    + simpl. rewrite map_app. simpl. rewrite <- app_assoc. exact Hnd.
Qed.

(** The frame of returns: the index is the first ticker's, and each
    ticker's column holds its returns looked up at those timestamps. *)
Lemma portfolio_returns_spec (k0 : string) (d0 : DataFrame)
      (rest : list (string * DataFrame)) :
  d0 <> [] ->
  NoDup (map fst ((k0, d0) :: rest)) ->
  Forall (fun e => NoDup (map stamp (snd e))) ((k0, d0) :: rest) ->
  portfolio_returns ((k0, d0) :: rest) =
  {| findex := map stamp d0;
     fcols := map (fun e => (fst e,
                             map (fun t => lookup t (returns_col (snd e))) (map stamp d0)))
                  ((k0, d0) :: rest) |}.
Proof.
  intros Hd0 Hkeys Hstamps.
  rewrite portfolio_returns_fold. simpl fold_left.
  unfold add_ticker at 2. simpl fst. simpl snd.
  rewrite setitem_first by (try reflexivity; apply returns_col_nonempty; exact Hd0).
  simpl map at 1. simpl dict_set.
  rewrite labels_returns_col.
  inversion Hstamps as [| ? ? Hs0 Hsrest]; subst. simpl in Hs0.
  rewrite fold_add_ticker.
  - simpl. f_equal. f_equal.
    + f_equal. rewrite <- (labels_returns_col d0). symmetry.
      apply lookup_labels. rewrite labels_returns_col. exact Hs0.
    + apply map_ext_in. intros [k d] Hin. simpl. f_equal.
      apply align_lookup. rewrite labels_returns_col.
      rewrite Forall_forall in Hsrest. apply (Hsrest (k, d) Hin).
  - simpl. destruct d0; [contradiction | discriminate].
  - exact Hkeys.
Qed.

(** ** C1: the equal-weight portfolio column *)

Lemma combine_map_seq (idx : list Z) (F : nat -> float) (G : Z -> float) :
  (forall i, (i < length idx)%nat -> F i = G (nth i idx 0%Z)) ->
  combine idx (map F (seq 0 (length idx))) = map (fun t => (t, G t)) idx.
Proof.
  revert F. induction idx as [| t idx IH]; intros F HF; [reflexivity |].
  simpl. rewrite (HF 0%nat) by (simpl; lia). simpl. f_equal.
  rewrite <- seq_shift, map_map. apply IH.
  intros i Hi. apply (HF (S i)). simpl. lia.
Qed.

Lemma nth_map_lookup (g : Z -> float) (idx : list Z) (i : nat) :
  (i < length idx)%nat -> nth i (map g idx) NaN = g (nth i idx 0%Z).
Proof.
  intros Hi. rewrite (nth_indep _ NaN (g 0%Z)) by (now rewrite length_map).
  apply map_nth.
Qed.

(** The ['Portfolio'] column: over the first ticker's timestamps, the mean
    of the returns the tickers have at each of them. *)
Lemma portfolio_column_spec (k0 : string) (d0 : DataFrame)
      (rest : list (string * DataFrame)) :
  d0 <> [] ->
  NoDup (map fst ((k0, d0) :: rest)) ->
  Forall (fun e => NoDup (map stamp (snd e))) ((k0, d0) :: rest) ->
  portfolio_column ((k0, d0) :: rest) =
  map (fun t => (t, mean (map (fun e => lookup t (returns_col (snd e)))
                              ((k0, d0) :: rest))))
      (map stamp d0).
Proof.
  intros Hd0 Hkeys Hstamps. unfold portfolio_column.
  rewrite (portfolio_returns_spec k0 d0 rest Hd0 Hkeys Hstamps).
  unfold mean_axis1, frame_row. cbn [findex fcols].
  apply combine_map_seq. intros i Hi. f_equal.
  rewrite map_map. apply map_ext. intros e. cbn [snd].
  apply nth_map_lookup. exact Hi.
Qed.

(** C1.  For tickers with distinct names and frames with distinct
    timestamps, the first frame not empty, the portfolio column is indexed
    by the first ticker's timestamps, and its value at [t] is the mean of
    the returns that the constituents have at [t]: a constituent without a
    return at [t] is left out of the mean, the timestamp stays.  When all
    [N] constituents have a finite return at [t], the value is their sum
    divided by [N]. *)
Theorem C1_portfolio_mean (k0 : string) (d0 : DataFrame)
        (rest : list (string * DataFrame)) :
  let stock_data := (k0, d0) :: rest in
  d0 <> [] ->
  NoDup (map fst stock_data) ->
  Forall (fun e => NoDup (map stamp (snd e))) stock_data ->
  let at_t := fun t => map (fun e => lookup t (returns_col (snd e))) stock_data in
  portfolio_column stock_data =
    map (fun t => (t, mean (at_t t))) (map stamp d0) /\
  (forall t, mean (at_t t) =
             fdiv (fsum (valid (at_t t))) (Fin (INR (length (valid (at_t t)))))) /\
  (forall t rs, at_t t = map Fin rs ->
     mean (at_t t) = Fin (rsum rs / INR (length stock_data))).
Proof.
  intros stock_data Hd0 Hkeys Hstamps at_t.
  split; [apply portfolio_column_spec; assumption |].
  split; [reflexivity |].
  intros t rs Hrs. rewrite Hrs.
  assert (Hlen : length rs = length stock_data).
  { rewrite <- (length_map Fin), <- Hrs. unfold at_t. now rewrite length_map. }
  rewrite mean_fin; [unfold rmean; now rewrite Hlen |].
  intros E. rewrite E in Hlen. discriminate.
Qed.

Lemma mean_present (v : list float) (l : list R) :
  valid v = map Fin l -> l <> [] -> mean v = Fin (rmean l).
Proof.
  intros Hv Hl. rewrite <- (mean_fin l Hl). unfold mean.
  now rewrite Hv, valid_fin.
Qed.

Lemma mean_absent (v : list float) : valid v = [] -> mean v = NaN.
Proof. intros Hv. unfold mean. rewrite Hv. apply fdiv_zero_zero. Qed.

Lemma gap_portfolio_wf :
  sample_frame <> [] /\
  NoDup (map fst gap_portfolio) /\
  Forall (fun e => NoDup (map stamp (snd e))) gap_portfolio.
Proof.
  split; [discriminate |]. split.
  - simpl. repeat constructor; simpl; intuition discriminate.
  - repeat constructor; simpl; intuition discriminate.
Qed.

Lemma C1_portfolio_mean_witness :
  portfolio_column gap_portfolio =
  map (fun t => (t, mean (map (fun e => lookup t (returns_col (snd e))) gap_portfolio)))
      (map stamp sample_frame).
Proof.
  destruct gap_portfolio_wf as [H0 [H1 H2]].
  exact (proj1 (C1_portfolio_mean "AAA"%string sample_frame
                  [("BBB"%string, gap_frame)] H0 H1 H2)).
Defined.

(** Timestamp 2 is missing from the second ticker, and the portfolio
    series still has a return at it. *)
Lemma C1_inner_join_fails : ~ inner_join_policy gap_portfolio.
Proof.
  intros H.
  assert (Hin : In 2%Z (labels (dropna (portfolio_column gap_portfolio)))).
  { destruct gap_portfolio_wf as [H0 [H1 H2]].
    unfold gap_portfolio in *. rewrite portfolio_column_spec by assumption.
    unfold sample_frame, gap_frame. cbn [map snd fst stamp].
    rewrite !returns_col_fin by (repeat constructor; simpl; lra).
    cbn.
    rewrite (mean_absent [NaN; NaN]) by reflexivity.
    rewrite (mean_present [Fin (110 / 100 - 1); NaN] [110 / 100 - 1])
      by (try reflexivity; discriminate).
    cbn. left. reflexivity. }
  specialize (H 2%Z Hin ("BBB"%string, gap_frame) (or_intror (or_introl eq_refl))).
  cbn [snd] in H. unfold gap_frame in H.
  rewrite daily_returns_fin in H by (repeat constructor; simpl; lra).
  cbn in H. destruct H as [H | []]. discriminate.
Qed.

(** ** C8: a portfolio of two tickers with the same frame *)

Lemma mean_pair (x : float) : mean [x; x] = x.
Proof.
  destruct x as [r | | |].
  - change [Fin r; Fin r] with (map Fin [r; r]).
    rewrite mean_fin by discriminate. f_equal.
    unfold rmean, rsum. simpl. field.
  - unfold mean, fsum, fdiv. simpl. destruct (Rlt_dec (1 + 1) 0); [lra | reflexivity].
  - unfold mean, fsum, fdiv. simpl. destruct (Rlt_dec (1 + 1) 0); [lra | reflexivity].
  - apply mean_absent. reflexivity.
Qed.

Lemma map_nth_seq (v : list float) :
  map (fun i => nth i v NaN) (seq 0 (length v)) = v.
Proof.
  induction v as [| x v IH]; [reflexivity |].
  simpl. f_equal. rewrite <- seq_shift, map_map. exact IH.
Qed.

Lemma combine_labels_values (s : Series) : combine (labels s) (svalues s) = s.
Proof.
  induction s as [| [t x] s IH]; [reflexivity |]. simpl. f_equal. exact IH.
Qed.

Lemma labels_length (s : Series) : length (labels s) = length s.
Proof. apply length_map. Qed.

Lemma svalues_length (s : Series) : length (svalues s) = length s.
Proof. apply length_map. Qed.

Lemma twin_frame (a b : string) (S : DataFrame) :
  a <> b -> S <> [] ->
  portfolio_returns [(a, S); (b, S)] =
  {| findex := labels (returns_col S);
     fcols := [(a, svalues (returns_col S)); (b, svalues (returns_col S))] |}.
Proof.
  intros Hab HS. rewrite portfolio_returns_fold. simpl fold_left.
  unfold add_ticker. simpl fst. simpl snd.
  rewrite (setitem_first empty_frame a)
    by (try reflexivity; apply returns_col_nonempty; exact HS).
  rewrite setitem_next.
  - cbn [findex fcols]. rewrite align_same.
    unfold empty_frame. cbn [fcols map dict_set].
    destruct (String.eqb_spec b a) as [E | _]; [symmetry in E; contradiction |].
    reflexivity.
  - cbn [findex]. intros E. apply (f_equal (@length Z)) in E.
    rewrite labels_length in E.
    pose proof (returns_col_nonempty S HS) as Hne.
    destruct (returns_col S); [contradiction | discriminate].
Qed.

(** With the same frame under both tickers the portfolio's returns are
    the frame's own. *)
Lemma twin_portfolio_column (a b : string) (S : DataFrame) :
  a <> b -> S <> [] ->
  portfolio_column [(a, S); (b, S)] = returns_col S.
Proof.
  intros Hab HS. unfold portfolio_column. rewrite (twin_frame a b S Hab HS).
  unfold mean_axis1, frame_row. cbn [findex fcols map snd].
  rewrite (map_ext _ (fun i => nth i (svalues (returns_col S)) NaN))
    by (intros i; apply mean_pair).
  rewrite labels_length, <- svalues_length, map_nth_seq.
  apply combine_labels_values.
Qed.

(** The product of the growth factors telescopes to last close over first
    close. *)
Lemma wealth_last (p : list R) : forall prev acc : R,
  prev <> 0 -> Forall (fun x => x <> 0) p ->
  last (rcumprod_from acc (map (fun x => 1 + x) (returns_from prev p))) acc =
  acc * last p prev / prev.
Proof.
  induction p as [| x p IH]; intros prev acc Hprev Hp.
  - simpl. field. exact Hprev.
  - inversion Hp as [| ? ? Hx Hp']; subst.
    simpl returns_from. simpl map. simpl rcumprod_from.
    rewrite !last_cons_default.
    rewrite (IH x (acc * (1 + (x / prev - 1))) Hx Hp').
    field. split; assumption.
Qed.

Lemma last_map_Fin (l : list R) (d : float) (d' : R) :
  l <> [] -> last (map Fin l) d = Fin (last l d').
Proof.
  intros Hl. destruct l as [| w ws]; [contradiction |].
  simpl map. rewrite !last_cons_default. symmetry. apply last_map_default.
Qed.

Lemma twin_total_return (r0 : row) (rest : DataFrame) :
  nonzero_prices (r0 :: rest) -> rest <> [] ->
  iloc_last (cumprod (map (fadd (Fin 1)) (svalues (returns_col (r0 :: rest))))) =
  Returns (Fin (last (prices (r0 :: rest)) 0 / Close r0)).
Proof.
  intros Hnz Hrest.
  rewrite returns_col_fin by exact Hnz.
  cbn [svalues map snd].
  assert (Hl : length (map stamp rest) = length (map Fin (returns (r0 :: rest)))).
  { rewrite !length_map, returns_length. simpl length. lia. }
  pose proof (svalues_combine _ _ Hl) as Hv. unfold svalues in Hv. rewrite Hv.
  unfold cumprod. cbn [cumprod_from fadd isnan].
  change (cumprod_from (Fin 1) (map (fadd (Fin 1)) (map Fin (returns (r0 :: rest)))))
    with (cumprod (map (fadd (Fin 1)) (map Fin (returns (r0 :: rest))))).
  rewrite cumulative_fin. unfold iloc_last.
  inversion Hnz as [| ? ? H0 Hnz']; subst.
  assert (Hw : wealth (returns (r0 :: rest)) <> []).
  { intros E. apply (f_equal (@length R)) in E.
    rewrite wealth_length, returns_length in E.
    destruct rest; [contradiction | discriminate]. }
  f_equal. rewrite (last_map_Fin _ NaN 1 Hw). f_equal.
  unfold wealth, returns, prices. cbn [map].
  rewrite (wealth_last (map Close rest) (Close r0) 1 H0)
    by (rewrite Forall_map; exact Hnz').
  rewrite last_cons_default. field. exact H0.
Qed.

(** C8, as the code has it.  With the same frame [S] under two tickers,
    the portfolio's volatility, Sharpe ratio and maximum drawdown are those
    of [calculate_metrics] on [S]; the total return is the same when [S]
    has at least two closes, none of them zero.  (With a single row the
    portfolio's cumulative product ends in a missing value.) *)
Theorem C8_twin_portfolio (a b : string) (S : DataFrame) (m : Metrics) :
  a <> b ->
  calculate_metrics (Some S) = Some m ->
  exists v,
    portfolio_analysis [(a, S); (b, S)] = Analysis v /\
    portfolio_volatility v = volatility m /\
    portfolio_sharpe v = sharpe_ratio m /\
    portfolio_max_dd v = max_drawdown m /\
    (nonzero_prices S -> (2 <= length S)%nat ->
     portfolio_total_return v = total_return m).
Proof.
  intros Hab Hm.
  destruct (calculate_metrics_fields S m Hm) as [_ [Ht [Hv [Hs Hd]]]].
  destruct S as [| r0 rest]; [discriminate |].
  assert (HS : r0 :: rest <> []) by discriminate.
  unfold portfolio_analysis. cbv zeta.
  rewrite (twin_portfolio_column a b _ Hab HS), dropna_returns_col.
  destruct (iloc_last (cumprod (map (fadd (Fin 1)) (svalues (returns_col (r0 :: rest))))))
    as [c | e] eqn:Ec.
  - eexists. split; [reflexivity |].
    cbn [portfolio_volatility portfolio_sharpe portfolio_max_dd portfolio_total_return].
    rewrite Hv, Hs, Hd. repeat split.
    intros Hnz Hlen.
    assert (Hrest : rest <> []) by (destruct rest; [simpl in Hlen; lia | discriminate]).
    assert (Hc : c = Fin (last (prices (r0 :: rest)) 0 / Close r0))
      by (pose proof (twin_total_return r0 rest Hnz Hrest); congruence).
    rewrite Hc, Ht. inversion Hnz as [| ? ? H0 _]; subst.
    generalize (last (prices (r0 :: rest)) 0). intros pn.
    cbn [hd prices map]. unfold fsub. cbn [fadd fopp].
    rewrite fdiv_fin by exact H0.
    cbn [fmul]. apply (f_equal Fin). field. exact H0.
  - unfold returns_col in Ec. simpl in Ec. discriminate.
Qed.

Lemma C8_twin_portfolio_witness :
  exists v m,
    portfolio_analysis [("AAA"%string, sample_frame); ("BBB"%string, sample_frame)]
      = Analysis v /\
    calculate_metrics (Some sample_frame) = Some m /\
    portfolio_total_return v = total_return m.
Proof.
  destruct (C8_twin_portfolio "AAA"%string "BBB"%string sample_frame _
              ltac:(discriminate) eq_refl) as [v [Hv [_ [_ [_ Ht]]]]].
  exists v. eexists. split; [exact Hv |]. split; [reflexivity |].
  apply Ht; [apply positive_nonzero, sample_frame_positive | simpl; lia].
Defined.

(** With a single row under both tickers the portfolio's total return is
    missing while the frame's own is a number. *)
Lemma C8_single_row_differs :
  exists v m,
    portfolio_analysis
      [("AAA"%string, single_row_frame); ("BBB"%string, single_row_frame)]
      = Analysis v /\
    calculate_metrics (Some single_row_frame) = Some m /\
    portfolio_total_return v <> total_return m.
Proof.
  eexists. eexists. split.
  - unfold portfolio_analysis. cbv zeta.
    rewrite twin_portfolio_column by discriminate.
    reflexivity.
  - split; [reflexivity |].
    cbn. rewrite fdiv_fin by lra. discriminate.
Qed.

(** ** C9: the correlation matrix *)

Lemma nth_map_seq {A : Type} (f : nat -> A) (k i : nat) (d : A) :
  (i < k)%nat -> nth i (map f (seq 0 k)) d = f i.
Proof.
  intros Hi. rewrite (nth_indep _ d (f 0%nat)) by (now rewrite length_map, length_seq).
  rewrite map_nth, seq_nth by exact Hi. reflexivity.
Qed.

Lemma corr_at_entry (fr : Frame) (i j : nat) :
  (i < length (fcols fr))%nat -> (j < length (fcols fr))%nat ->
  corr_at fr i j = corr_entry (fcols fr) i j.
Proof.
  intros Hi Hj. unfold corr_at, corr.
  rewrite (nth_map_seq _ _ i [] Hi). apply nth_map_seq. exact Hj.
Qed.

Lemma corr_entry_sym (cols : list (string * list float)) (i j : nat) :
  corr_entry cols i j = corr_entry cols j i.
Proof. unfold corr_entry. now rewrite Nat.max_comm, Nat.min_comm. Qed.

Lemma both_self (c : list float) :
  filter (fun p => (notna (fst p) && notna (snd p))%bool) (combine c c) =
  combine (valid c) (valid c).
Proof.
  unfold valid. induction c as [| x c IH]; [reflexivity |].
  simpl. destruct (notna x); simpl; now rewrite IH.
Qed.

Lemma map_fst_combine_self {A : Type} (l : list A) : map fst (combine l l) = l.
Proof. induction l as [| x l IH]; [reflexivity |]. simpl. now rewrite IH. Qed.

Lemma map_snd_combine_self {A : Type} (l : list A) : map snd (combine l l) = l.
Proof. induction l as [| x l IH]; [reflexivity |]. simpl. now rewrite IH. Qed.

Lemma zip_mul_fin (u v : list R) :
  zip_with fmul (map Fin u) (map Fin v) =
  map Fin (map (fun p => fst p * snd p) (combine u v)).
Proof.
  revert v. induction u as [| x u IH]; intros [| y v]; try reflexivity.
  simpl. now rewrite IH.
Qed.

Lemma ssqdm_nonneg (l : list R) : 0 <= ssqdm l.
Proof.
  unfold ssqdm. apply rsum_nonneg. apply Forall_forall. intros y Hy.
  apply in_map_iff in Hy. destruct Hy as [x [<- _]].
  exact (Rle_0_sqr (x - rmean l)).
Qed.

(** The correlation of a column with itself, when the values it holds are
    finite: 1 if their squared deviations do not sum to zero, missing
    otherwise. *)
Lemma pearson_self (c : list float) (l : list R) :
  valid c = map Fin l ->
  pearson c c =
  match l with
  | [] => NaN
  | _ :: _ => if Req_dec_T (ssqdm l) 0 then NaN else Fin 1
  end.
Proof.
  intros Hc. unfold pearson. rewrite both_self, Hc.
  rewrite map_fst_combine_self, map_snd_combine_self.
  rewrite length_combine, Nat.min_id, length_map.
  destruct l as [| x l']; [reflexivity |].
  set (l := x :: l') in *.
  assert (Hn : 0 < INR (length l)) by (apply INR_length_pos; discriminate).
  replace (length l <? 1)%nat with false
    by (symmetry; apply Nat.ltb_ge; unfold l; simpl; lia).
  rewrite fsum_fin, fdiv_fin by lra. fold (rmean l).
  assert (Hdx : map (fun v => fsub v (Fin (rmean l))) (map Fin l) =
                map Fin (map (fun v => v - rmean l) l))
    by (rewrite !map_map; reflexivity).
  rewrite Hdx, zip_mul_fin, fsum_fin.
  assert (Hss : rsum (map (fun p => fst p * snd p)
                        (combine (map (fun v => v - rmean l) l)
                                 (map (fun v => v - rmean l) l))) = ssqdm l).
  { unfold ssqdm. f_equal. clear. generalize (rmean l). intros mu.
    induction l as [| y l IH]; [reflexivity |]. simpl. now rewrite IH. }
  rewrite Hss. cbn [fmul].
  pose proof (ssqdm_nonneg l) as Hs.
  rewrite fsqrt_fin by (apply Rmult_le_pos; exact Hs).
  rewrite sqrt_square by exact Hs.
  unfold fneq0. destruct (Req_dec_T (ssqdm l) 0) as [E | N]; [reflexivity |].
  rewrite fdiv_fin by exact N. f_equal. field. exact N.
Qed.

Lemma rsum_const (c : R) (l : list R) :
  (forall v, In v l -> v = c) -> rsum l = INR (length l) * c.
Proof.
  induction l as [| x l IH]; intros H.
  - unfold rsum. simpl. ring.
  - rewrite rsum_cons, IH by (intros v Hv; apply H; now right).
    replace (INR (length (x :: l))) with (INR (length l) + 1)
      by (symmetry; apply (S_INR (length l))).
    rewrite (H x) by now left. ring.
Qed.

Lemma rsum_ge_in (z : R) (l : list R) :
  Forall (fun x => 0 <= x) l -> In z l -> z <= rsum l.
Proof.
  induction 1 as [| x l Hx Hl IH]; intros Hin; [contradiction |].
  rewrite rsum_cons. pose proof (rsum_nonneg l Hl).
  destruct Hin as [-> | Hin]; [lra | specialize (IH Hin); lra].
Qed.

Lemma ssqdm_constant (l : list R) :
  (forall x y, In x l -> In y l -> x = y) -> ssqdm l = 0.
Proof.
  intros Heq. destruct l as [| c l']; [reflexivity |].
  set (l := c :: l') in *.
  assert (Hc : forall v, In v l -> v = c) by (intros v Hv; apply Heq; [exact Hv | now left]).
  assert (Hmean : rmean l = c).
  { unfold rmean. rewrite (rsum_const c l Hc).
    pose proof (INR_length_pos l ltac:(discriminate)). field. lra. }
  unfold ssqdm. rewrite (rsum_const 0); [ring |].
  intros v Hv. apply in_map_iff in Hv. destruct Hv as [x [<- Hx]].
  rewrite Hmean, (Hc x Hx). ring.
Qed.

Lemma ssqdm_distinct (l : list R) (x y : R) :
  In x l -> In y l -> x <> y -> ssqdm l <> 0.
Proof.
  intros Hx Hy Hxy.
  assert (Hz : exists z, In z l /\ z <> rmean l).
  { destruct (Req_dec_T x (rmean l)) as [Ex | Nx]; [| now exists x].
    exists y. split; [exact Hy | congruence]. }
  destruct Hz as [z [Hz Hne]].
  assert (Hpos : 0 < (z - rmean l) * (z - rmean l)).
  { pose proof (Rsqr_pos_lt (z - rmean l)) as H. unfold Rsqr in H. apply H. lra. }
  assert (Hle : (z - rmean l) * (z - rmean l) <= ssqdm l).
  { unfold ssqdm. apply rsum_ge_in.
    - apply Forall_forall. intros w Hw. apply in_map_iff in Hw.
      destruct Hw as [v [<- _]]. exact (Rle_0_sqr (v - rmean l)).
    - apply in_map_iff. exists z. split; [reflexivity | exact Hz]. }
  lra.
Qed.

Lemma pearson_self_distinct (c : list float) (l : list R) (x y : R) :
  valid c = map Fin l -> In x l -> In y l -> x <> y -> pearson c c = Fin 1.
Proof.
  intros Hc Hx Hy Hxy. rewrite (pearson_self c l Hc).
  destruct l as [| a l']; [contradiction |].
  destruct (Req_dec_T (ssqdm (a :: l')) 0) as [E | _]; [| reflexivity].
  exfalso. exact (ssqdm_distinct _ x y Hx Hy Hxy E).
Qed.

Lemma pearson_self_constant (c : list float) (l : list R) :
  valid c = map Fin l -> (forall x y, In x l -> In y l -> x = y) ->
  pearson c c = NaN.
Proof.
  intros Hc Heq. rewrite (pearson_self c l Hc).
  destruct l as [| a l']; [reflexivity |].
  destruct (Req_dec_T (ssqdm (a :: l')) 0) as [_ | N]; [reflexivity |].
  exfalso. apply N. apply ssqdm_constant. exact Heq.
Qed.

(** C9, as the code has it.  The correlation matrix is symmetric.  An
    entry between two equal columns (the diagonal, or two tickers with the
    same series) whose present values are finite is 1 when two of those
    values differ, and is missing ([NaN]) when they are all equal or fewer
    than two. *)
Theorem C9_correlation (fr : Frame) (i j : nat) :
  (i < length (fcols fr))%nat -> (j < length (fcols fr))%nat ->
  corr_at fr i j = corr_at fr j i /\
  (forall l : list R,
     column fr j = column fr i ->
     valid (column fr i) = map Fin l ->
     ((exists x y, In x l /\ In y l /\ x <> y) -> corr_at fr i j = Fin 1) /\
     ((forall x y, In x l -> In y l -> x = y) -> corr_at fr i j = NaN)).
Proof.
  intros Hi Hj.
  rewrite (corr_at_entry fr i j Hi Hj), (corr_at_entry fr j i Hj Hi).
  split; [apply corr_entry_sym |].
  intros l Hcol Hval.
  assert (Hp : corr_entry (fcols fr) i j = pearson (column fr i) (column fr i)).
  { unfold corr_entry. fold (column fr (Nat.max i j)). fold (column fr (Nat.min i j)).
    destruct (Nat.max_dec i j) as [-> | ->], (Nat.min_dec i j) as [-> | ->];
      now rewrite ?Hcol. }
  rewrite Hp. split.
  - intros [x [y [Hx [Hy Hxy]]]]. exact (pearson_self_distinct _ l x y Hval Hx Hy Hxy).
  - intros Heq. exact (pearson_self_constant _ l Hval Heq).
Qed.

Lemma flat_portfolio_frame : portfolio_returns flat_portfolio = flat_returns.
Proof.
  unfold flat_portfolio.
  rewrite portfolio_returns_spec.
  - unfold flat_frame, detour_frame. cbn [map snd fst stamp].
    rewrite !returns_col_fin by (repeat constructor; simpl; lra).
    reflexivity.
  - discriminate.
  - simpl. repeat constructor; simpl; intuition discriminate.
  - repeat constructor; simpl; intuition discriminate.
Qed.

Lemma C9_correlation_witness :
  corr_at (portfolio_returns flat_portfolio) 1 1 = Fin 1.
Proof.
  rewrite flat_portfolio_frame.
  refine (proj1 (proj2 (C9_correlation flat_returns 1 1 _ _)
                  [90 / 100 - 1; 121 / 90 - 1] eq_refl eq_refl) _).
  - simpl. lia.
  - simpl. lia.
  - exists (90 / 100 - 1), (121 / 90 - 1).
    split; [left; reflexivity |]. split; [right; left; reflexivity |]. lra.
Defined.

(** A ticker whose price never moves has a missing diagonal entry, not
    1. *)
Lemma C9_flat_diagonal_missing :
  corr_at (portfolio_returns flat_portfolio) 0 0 <> Fin 1.
Proof.
  rewrite flat_portfolio_frame, corr_at_entry by (simpl; lia).
  unfold corr_entry, flat_returns. cbn [Nat.max Nat.min nth snd fcols].
  rewrite (pearson_self_constant [NaN; Fin (100 / 100 - 1); Fin (100 / 100 - 1)]
             [100 / 100 - 1; 100 / 100 - 1] eq_refl).
  - discriminate.
  - simpl. intros x y [<- | [<- | []]] [<- | [<- | []]]; reflexivity.
Qed.

(** ** The specification's sample values *)

(** Prices [100, 110, 121] have a total return of 21 percent. *)
Example sample_total_return :
  exists m, calculate_metrics (Some sample_frame) = Some m /\
            total_return m = Fin 21.
Proof.
  eexists. split; [reflexivity |].
  cbn [total_return sample_frame last Close]. unfold fsub. cbn [fadd fopp].
  rewrite fdiv_fin by lra. cbn [fmul]. apply (f_equal Fin). lra.
Qed.

(** A constant price series has total return, volatility, Sharpe ratio
    and maximum drawdown all 0. *)
Example flat_frame_metrics :
  exists m, calculate_metrics (Some flat_frame) = Some m /\
            total_return m = Fin 0 /\ volatility m = Fin 0 /\
            sharpe_ratio m = Fin 0 /\ max_drawdown m = Fin 0.
Proof.
  assert (Hpos : positive_prices flat_frame) by (repeat constructor; simpl; lra).
  pose proof (positive_nonzero _ Hpos) as Hnz.
  destruct (calculate_metrics_some flat_frame ltac:(discriminate)) as [m Hm].
  exists m. split; [exact Hm |].
  destruct (calculate_metrics_fields flat_frame m Hm) as [_ [Ht [Hv [Hs Hd]]]].
  cbv zeta in Hv, Hs, Hd.
  assert (Hr : svalues (daily_returns flat_frame) = map Fin [0; 0]).
  { rewrite daily_values_fin by exact Hnz. unfold returns. simpl.
    repeat (f_equal; try lra). }
  assert (Hstd : std (map Fin [0; 0]) = Fin 0).
  { rewrite std_fin by (simpl; lia). f_equal.
    unfold sample_std, rmean, rsum. simpl.
    replace ((0 + 0 + 0) / (1 + 1)) with 0 by lra.
    replace ((0 + (0 - 0) * (0 - 0) + (0 - 0) * (0 - 0)) / (1 + 1 - 1)) with 0 by lra.
    apply sqrt_0. }
  rewrite Hr in Hv, Hs, Hd. repeat split.
  - rewrite Ht. cbn [flat_frame prices map hd last Close]. unfold fsub. cbn [fadd fopp].
    rewrite fdiv_fin by lra. cbn [fmul]. apply (f_equal Fin). lra.
  - rewrite Hv. unfold volatility_of. rewrite Hstd. cbn [fmul sqrt252].
    apply (f_equal Fin). ring.
  - rewrite Hs. apply sharpe_of_zero_std. exact Hstd.
  - rewrite Hd, max_drawdown_of_fin.
    + unfold wealth. simpl. apply (f_equal Fin).
      unfold Rmax, Rmin.
      repeat match goal with
             | |- context [Rle_dec ?a ?b] => destruct (Rle_dec a b); try lra
             end.
    + discriminate.
    + unfold wealth. simpl. repeat constructor; lra.
Qed.

(** Prices [100, 110, 99]: the wealth index falls from 1.1 to 0.99, a
    drawdown of 10 percent. *)
Example dip_frame_drawdown :
  exists m, calculate_metrics (Some dip_frame) = Some m /\
            max_drawdown m = Fin (-10).
Proof.
  assert (Hnz : nonzero_prices dip_frame) by (repeat constructor; simpl; lra).
  destruct (calculate_metrics_some dip_frame ltac:(discriminate)) as [m Hm].
  exists m. split; [exact Hm |].
  destruct (calculate_metrics_fields dip_frame m Hm) as [_ [_ [_ [_ Hd]]]].
  cbv zeta in Hd. rewrite Hd, daily_values_fin by exact Hnz.
  assert (Hw : wealth (returns dip_frame) = [11 / 10; 99 / 100]).
  { unfold returns, wealth. simpl. f_equal; [lra |]. f_equal. lra. }
  rewrite max_drawdown_of_fin.
  - rewrite Hw. apply (f_equal Fin). unfold rdrawdown, rdrawdown_from, rmin_list.
    rewrite Rmax_left by lra. cbn [fold_left].
    rewrite Rmin_right by lra. lra.
  - discriminate.
  - rewrite Hw. repeat constructor; lra.
Qed.

(** ** The ticker input *)

Lemma upper_char_idem (c : ascii) : upper_char (upper_char c) = upper_char c.
Proof. destruct c as [[] [] [] [] [] [] [] []]; reflexivity. Qed.

Lemma upper_char_space (c : ascii) : is_space (upper_char c) = is_space c.
Proof. destruct c as [[] [] [] [] [] [] [] []]; reflexivity. Qed.

Lemma upper_char_comma (c : ascii) :
  Ascii.eqb (upper_char c) ","%char = Ascii.eqb c ","%char.
Proof. destruct c as [[] [] [] [] [] [] [] []]; reflexivity. Qed.

Lemma upper_idem (s : string) : upper (upper s) = upper s.
Proof.
  induction s as [| c s IH]; [reflexivity |].
  simpl. now rewrite upper_char_idem, IH.
Qed.

Lemma lstrip_idem (s : string) : lstrip (lstrip s) = lstrip s.
Proof.
  induction s as [| c s IH]; [reflexivity |].
  simpl. destruct (is_space c) eqn:E; [exact IH |].
  simpl. now rewrite E.
Qed.

Lemma rstrip_idem (s : string) : rstrip (rstrip s) = rstrip s.
Proof.
  induction s as [| c s IH]; [reflexivity |].
  simpl. destruct (rstrip s) as [| d r] eqn:E.
  - destruct (is_space c) eqn:Ec; [reflexivity |]. simpl. now rewrite Ec.
  - change (rstrip (String c (String d r)))
      with (match rstrip (String d r) with
            | EmptyString => if is_space c then EmptyString else String c EmptyString
            | String d' r' => String c (String d' r')
            end).
    now rewrite IH.
Qed.

(** What is left of [rstrip] does not start with a space unless the text
    did. *)
Lemma lstrip_rstrip (s : string) :
  lstrip s = s -> lstrip (rstrip s) = rstrip s.
Proof.
  destruct s as [| c s]; [reflexivity |].
  simpl. destruct (is_space c) eqn:E.
  - intros H. exfalso.
    assert (Hlen : (String.length (lstrip s) <= String.length s)%nat).
    { clear. induction s as [| d s IH]; simpl; [lia |].
      destruct (is_space d); simpl; lia. }
    rewrite H in Hlen. simpl in Hlen. lia.
  - intros _. destruct (rstrip s); simpl; now rewrite E.
Qed.

Lemma strip_idem (s : string) : strip (strip s) = strip s.
Proof.
  unfold strip.
  rewrite (lstrip_rstrip (lstrip s) (lstrip_idem s)). apply rstrip_idem.
Qed.

Lemma upper_lstrip (s : string) : lstrip (upper s) = upper (lstrip s).
Proof.
  induction s as [| c s IH]; [reflexivity |].
  simpl. rewrite upper_char_space. destruct (is_space c); [exact IH | reflexivity].
Qed.

Lemma upper_rstrip (s : string) : rstrip (upper s) = upper (rstrip s).
Proof.
  induction s as [| c s IH]; [reflexivity |].
  simpl. rewrite IH, upper_char_space.
  destruct (rstrip s); simpl; [destruct (is_space c) |]; reflexivity.
Qed.

Lemma upper_strip (s : string) : strip (upper s) = upper (strip s).
Proof. unfold strip. now rewrite upper_lstrip, upper_rstrip. Qed.

Lemma upper_nonempty (s : string) : nonempty (upper s) = nonempty s.
Proof. destruct s; reflexivity. Qed.

Lemma split_on_pieces (sep : ascii) (s : string) :
  Forall (fun w => str_all (fun c => negb (Ascii.eqb c sep)) w = true)
         (split_on sep s).
Proof.
  induction s as [| c s IH]; simpl; [repeat constructor |].
  destruct (Ascii.eqb c sep) eqn:E; [constructor; [reflexivity | exact IH] |].
  destruct (split_on sep s) as [| w ws]; [repeat constructor; simpl; now rewrite E |].
  inversion IH as [| ? ? Hw Hws]; subst.
  constructor; [simpl; now rewrite E, Hw | exact Hws].
Qed.

Lemma str_all_lstrip (p : ascii -> bool) (s : string) :
  str_all p s = true -> str_all p (lstrip s) = true.
Proof.
  induction s as [| c s IH]; [trivial |].
  simpl. intros H. apply andb_prop in H. destruct H as [Hc Hs].
  destruct (is_space c); [now apply IH | simpl; now rewrite Hc, Hs].
Qed.

Lemma str_all_rstrip (p : ascii -> bool) (s : string) :
  str_all p s = true -> str_all p (rstrip s) = true.
Proof.
  induction s as [| c s IH]; [trivial |].
  simpl. intros H. apply andb_prop in H. destruct H as [Hc Hs].
  specialize (IH Hs). destruct (rstrip s) as [| d r].
  - destruct (is_space c); [reflexivity | simpl; now rewrite Hc].
  - change (str_all p (String c (String d r)))
      with (p c && str_all p (String d r))%bool. now rewrite Hc, IH.
Qed.

Lemma str_all_upper_comma (s : string) : no_comma s = true -> no_comma (upper s) = true.
Proof.
  unfold no_comma. induction s as [| c s IH]; [trivial |].
  simpl. rewrite upper_char_comma. intros H. apply andb_prop in H.
  destruct H as [Hc Hs]. now rewrite Hc, IH.
Qed.

(** X1.  Every ticker read from the input is non-empty, holds no comma,
    has no white space at either end and is in upper case (stripping or
    upper-casing it again changes nothing). *)
Theorem selected_stocks_clean (stock_input t : string) :
  str_all is_ascii stock_input = true ->
  In t (selected_stocks stock_input) ->
  t <> EmptyString /\ no_comma t = true /\ strip t = t /\ upper t = t.
Proof.
  intros _ Hin. unfold selected_stocks in Hin.
  apply in_map_iff in Hin. destruct Hin as [s [<- Hs]].
  apply filter_In in Hs. destruct Hs as [Hs Hne].
  pose proof (split_on_pieces ","%char stock_input) as Hp.
  rewrite Forall_forall in Hp. specialize (Hp s Hs).
  repeat split.
  - intros E. rewrite <- upper_nonempty, E in Hne. discriminate.
  - apply str_all_upper_comma. unfold no_comma, strip.
    apply str_all_rstrip, str_all_lstrip. exact Hp.
  - rewrite upper_strip. now rewrite strip_idem.
  - apply upper_idem.
Qed.

Lemma selected_stocks_clean_witness :
  "MSFT"%string <> EmptyString /\ no_comma "MSFT" = true /\
  strip "MSFT" = "MSFT"%string /\ upper "MSFT" = "MSFT"%string.
Proof.
  apply (selected_stocks_clean " aapl,msft ,, Googl"%string "MSFT"%string).
  - reflexivity.
  - vm_compute. right. left. reflexivity.
Defined.

Lemma split_on_no_sep (sep : ascii) (a : string) :
  str_all (fun c => negb (Ascii.eqb c sep)) a = true -> split_on sep a = [a].
Proof.
  induction a as [| c a IH]; [reflexivity |].
  simpl. intros H. apply andb_prop in H. destruct H as [Hc Ha].
  apply negb_true_iff in Hc. rewrite Hc, (IH Ha). reflexivity.
Qed.

Lemma split_on_app (sep : ascii) (a b : string) :
  str_all (fun c => negb (Ascii.eqb c sep)) a = true ->
  split_on sep (a ++ String sep b) = a :: split_on sep b.
Proof.
  induction a as [| c a IH].
  - intros _. simpl. now rewrite Ascii.eqb_refl.
  - simpl. intros H. apply andb_prop in H. destruct H as [Hc Ha].
    apply negb_true_iff in Hc. rewrite Hc, (IH Ha). reflexivity.
Qed.

Lemma split_join (t : string) (ts : list string) :
  Forall (fun u => no_comma u = true) (t :: ts) ->
  split_on ","%char (join ", " (t :: ts)) = t :: map (String " "%char) ts.
Proof.
  revert t. induction ts as [| u ts IH]; intros t Hall.
  - inversion Hall; subst. simpl. now apply split_on_no_sep.
  - inversion Hall as [| ? ? Ht Hrest]; subst.
    change (join ", " (t :: u :: ts))
      with (t ++ String ","%char (String " "%char (join ", " (u :: ts))))%string.
    rewrite split_on_app by exact Ht.
    change (split_on ","%char (String " "%char (join ", " (u :: ts))))
      with (match split_on ","%char (join ", " (u :: ts)) with
            | [] => [String " "%char EmptyString]
            | w :: ws => String " "%char w :: ws
            end).
    rewrite (IH u Hrest). reflexivity.
Qed.

Lemma strip_after_space (u : string) : strip (String " "%char u) = strip u.
Proof. reflexivity. Qed.

Lemma nonempty_true (t : string) : t <> EmptyString -> nonempty t = true.
Proof. destruct t; [contradiction | reflexivity]. Qed.

(** X2.  Reading back a list of clean tickers joined with [", "], as the
    input box is pre-filled from [default_stocks], gives the list again. *)
Theorem selected_stocks_join (ts : list string) :
  Forall (fun t => str_all is_ascii t = true) ts ->
  Forall clean_ticker ts -> selected_stocks (join ", " ts) = ts.
Proof.
  intros _ Hall. destruct ts as [| t ts]; [reflexivity |].
  unfold selected_stocks. rewrite split_join.
  2:{ eapply Forall_impl; [| exact Hall]. intros u [_ [Hu _]]. exact Hu. }
  inversion Hall as [| ? ? [Hne [_ [Hs Hu]]] Hrest]; subst.
  cbn [filter]. rewrite Hs, (nonempty_true t Hne). cbn [map]. rewrite Hs, Hu.
  f_equal. clear -Hrest.
  induction Hrest as [| u ts [Hne [_ [Hs Hu]]] _ IH]; [reflexivity |].
  cbn [map filter]. rewrite strip_after_space, Hs, (nonempty_true u Hne).
  cbn [map]. rewrite strip_after_space, Hs, Hu. now rewrite IH.
Qed.

Lemma selected_stocks_join_witness :
  selected_stocks (join ", " default_stocks) = default_stocks.
Proof.
  apply (selected_stocks_join default_stocks).
  - repeat constructor.
  - repeat constructor; try discriminate; reflexivity.
Defined.

Lemma split_on_pieces_all (p : ascii -> bool) (sep : ascii) (s : string) :
  str_all (fun c => (p c || Ascii.eqb c sep)%bool) s = true ->
  Forall (fun w => str_all p w = true) (split_on sep s).
Proof.
  induction s as [| c s IH]; simpl; [repeat constructor |].
  intros H. apply andb_prop in H. destruct H as [Hc Hs]. specialize (IH Hs).
  destruct (Ascii.eqb c sep) eqn:E; [constructor; [reflexivity | exact IH] |].
  rewrite orb_false_r in Hc.
  destruct (split_on sep s) as [| w ws]; [repeat constructor; simpl; now rewrite Hc |].
  inversion IH as [| ? ? Hw Hws]; subst.
  constructor; [simpl; now rewrite Hc, Hw | exact Hws].
Qed.

Lemma lstrip_spaces (s : string) : str_all is_space s = true -> lstrip s = EmptyString.
Proof.
  induction s as [| c s IH]; [reflexivity |].
  simpl. intros H. apply andb_prop in H. destruct H as [Hc Hs].
  rewrite Hc. now apply IH.
Qed.

(** X3.  An input made of commas and white space only (the empty input
    among them) yields no ticker, which is when the script stops at line
    151. *)
Theorem selected_stocks_blank (stock_input : string) :
  str_all (fun c => (is_space c || Ascii.eqb c ","%char)%bool) stock_input = true ->
  selected_stocks stock_input = [].
Proof.
  intros H. unfold selected_stocks.
  pose proof (split_on_pieces_all is_space ","%char stock_input H) as Hp.
  induction Hp as [| w ws Hw _ IH]; [reflexivity |].
  assert (Hs : strip w = EmptyString)
    by (unfold strip; now rewrite (lstrip_spaces w Hw)).
  cbn [filter]. rewrite Hs. exact IH.
Qed.

Lemma selected_stocks_blank_witness : selected_stocks " , ,, "%string = [].
Proof. apply selected_stocks_blank. reflexivity. Defined.

(** ** The dict of fetched frames *)

Lemma dict_set_keys {A : Type} (key : string) (v : A) (d : list (string * A)) :
  In key (map fst d) -> map fst (dict_set key v d) = map fst d.
Proof.
  induction d as [| [k w] d IH]; intros Hin; [contradiction |].
  simpl. destruct (String.eqb_spec key k) as [-> | N]; [reflexivity |].
  simpl. f_equal. apply IH. destruct Hin as [E | Hin]; [| exact Hin].
  simpl in E. subst. contradiction.
Qed.

Lemma dict_set_NoDup {A : Type} (key : string) (v : A) (d : list (string * A)) :
  NoDup (map fst d) -> NoDup (map fst (dict_set key v d)).
Proof.
  intros Hnd. destruct (in_dec string_dec key (map fst d)) as [Hin | Hout].
  - now rewrite dict_set_keys.
  - rewrite dict_set_fresh by exact Hout. rewrite map_app. simpl.
    apply NoDup_app_remove_l with (l := []). simpl.
    apply Permutation_NoDup with (l := key :: map fst d).
    + apply Permutation_cons_append.
    + constructor; assumption.
Qed.

Lemma dict_set_In {A : Type} (key : string) (v : A) (d : list (string * A))
      (k : string) (w : A) :
  In (k, w) (dict_set key v d) ->
  (k = key /\ w = v) \/ In (k, w) d.
Proof.
  induction d as [| [k' w'] d IH]; simpl.
  - intros [E | []]. injection E as <- <-. now left.
  - destruct (String.eqb_spec key k') as [-> | N]; simpl.
    + intros [E | Hin]; [injection E as <- <-; now left | right; now right].
    + intros [E | Hin]; [right; now left |].
      destruct (IH Hin) as [H | H]; [now left | right; now right].
Qed.

Lemma dict_set_has {A : Type} (key : string) (v : A) (d : list (string * A)) :
  In (key, v) (dict_set key v d).
Proof.
  induction d as [| [k' w'] d IH]; simpl; [now left |].
  destruct (String.eqb_spec key k') as [-> | N]; [now left | right; exact IH].
Qed.

Lemma dict_set_keeps_keys {A : Type} (key : string) (v : A) (d : list (string * A))
      (k : string) :
  In k (map fst d) -> In k (map fst (dict_set key v d)).
Proof.
  intros Hin. destruct (in_dec string_dec key (map fst d)) as [Hk | Hk].
  - now rewrite dict_set_keys.
  - rewrite dict_set_fresh by exact Hk. rewrite map_app. apply in_or_app. now left.
Qed.

Lemma collect_invariant (download : string -> outcome DataFrame)
      (tickers : list string) : forall (seen : list string) acc,
  well_fetched download seen acc ->
  well_fetched download (seen ++ tickers) (collect download tickers acc).
Proof.
  induction tickers as [| t tickers IH]; intros seen acc Hacc.
  - simpl. now rewrite app_nil_r.
  - simpl. replace (seen ++ t :: tickers) with ((seen ++ [t]) ++ tickers)
      by (rewrite <- app_assoc; reflexivity).
    apply IH. destruct Hacc as [Hnd Hin].
    destruct (fetch_stock_data (download t)) as [[| r df] |] eqn:E.
    + split; [exact Hnd |]. intros k d Hk. destruct (Hin k d Hk) as [H1 H2].
      split; [apply in_or_app; now left | exact H2].
    + split; [apply dict_set_NoDup; exact Hnd |].
      intros k d Hk. apply dict_set_In in Hk. destruct Hk as [[-> ->] | Hk].
      * split; [apply in_or_app; right; now left |]. split; [exact E | discriminate].
      * destruct (Hin k d Hk) as [H1 H2].
        split; [apply in_or_app; now left | exact H2].
    + split; [exact Hnd |]. intros k d Hk. destruct (Hin k d Hk) as [H1 H2].
      split; [apply in_or_app; now left | exact H2].
Qed.

Lemma collect_complete (download : string -> outcome DataFrame)
      (tickers : list string) : forall acc k,
  (In k (map fst acc) \/
   (In k tickers /\ exists d, fetch_stock_data (download k) = Some d)) ->
  In k (map fst (collect download tickers acc)).
Proof.
  induction tickers as [| t tickers IH]; intros acc k H.
  - simpl. destruct H as [H | [[] _]]. exact H.
  - simpl. apply IH.
    destruct H as [H | [[<- | Hin] [d Hd]]].
    + left. destruct (fetch_stock_data (download t)) as [[| r df] |]; try exact H.
      now apply dict_set_keeps_keys.
    + left. rewrite Hd.
      assert (Hne : d <> []).
      { unfold fetch_stock_data in Hd.
        destruct (download t) as [[| r df] | e]; try discriminate.
        injection Hd as <-. discriminate. }
      destruct d as [| r df]; [contradiction |].
      apply (in_map fst _ (t, r :: df)). apply dict_set_has.
    + right. split; [exact Hin | now exists d].
Qed.

(** X4.  The dict of fetched frames has one entry per ticker whose
    download gave a non-empty frame, whatever the repetitions in the
    ticker list: its keys are distinct, each key is a requested ticker
    stored with its own non-empty frame, and every requested ticker with
    data is a key. *)
Theorem stock_data_of_spec (download : string -> outcome DataFrame)
        (tickers : list string) :
  let stock_data := stock_data_of download tickers in
  NoDup (map fst stock_data) /\
  (forall k d, In (k, d) stock_data ->
     In k tickers /\ download k = Returns d /\ d <> []) /\
  (forall k d, In k tickers -> download k = Returns d -> d <> [] ->
     In (k, d) stock_data).
Proof.
  intros stock_data.
  destruct (collect_invariant download tickers [] [])
    as [Hnd Hin]; [split; [constructor | intros k d []] |].
  fold (stock_data_of download tickers) in Hnd, Hin. fold stock_data in Hnd, Hin.
  assert (Hfetch : forall k d, fetch_stock_data (download k) = Some d ->
                               download k = Returns d).
  { intros k d. unfold fetch_stock_data.
    destruct (download k) as [[| r df] | e]; try discriminate.
    now intros [= <-]. }
  split; [exact Hnd |]. split.
  - intros k d Hk. destruct (Hin k d Hk) as [H1 [H2 H3]].
    split; [exact H1 |]. split; [now apply Hfetch | exact H3].
  - intros k d Hk Hd Hne.
    assert (Hf : fetch_stock_data (download k) = Some d).
    { unfold fetch_stock_data. rewrite Hd. destruct d; [contradiction | reflexivity]. }
    assert (Hkey : In k (map fst stock_data)).
    { apply collect_complete. right. split; [exact Hk | now exists d]. }
    apply in_map_iff in Hkey. destruct Hkey as [[k' d'] [E Hin']].
    simpl in E. subst k'. destruct (Hin k d' Hin') as [_ [Hf' _]].
    rewrite Hf in Hf'. injection Hf' as <-. exact Hin'.
Qed.

Lemma stock_data_of_spec_witness :
  NoDup (map fst (stock_data_of (fun _ => Returns sample_frame)
                                ["AAPL"%string; "MSFT"%string; "AAPL"%string])).
Proof.
  exact (proj1 (stock_data_of_spec (fun _ => Returns sample_frame)
                  ["AAPL"%string; "MSFT"%string; "AAPL"%string])).
Defined.

(** ** The portfolio tab on fetched frames *)

Lemma portfolio_returns_index (k0 : string) (d0 : DataFrame)
      (rest : list (string * DataFrame)) :
  d0 <> [] -> NoDup (map fst ((k0, d0) :: rest)) ->
  findex (portfolio_returns ((k0, d0) :: rest)) = map stamp d0.
Proof.
  intros Hd0 Hkeys. rewrite portfolio_returns_fold. simpl fold_left.
  unfold add_ticker at 2. simpl fst. simpl snd.
  rewrite setitem_first by (try reflexivity; apply returns_col_nonempty; exact Hd0).
  rewrite fold_add_ticker.
  - cbn [findex]. apply labels_returns_col.
  - cbn [findex]. rewrite labels_returns_col. destruct d0; [contradiction | discriminate].
  - exact Hkeys.
Qed.

Lemma mean_axis1_length (fr : Frame) : length (mean_axis1 fr) = length (findex fr).
Proof. unfold mean_axis1. now rewrite length_map, length_seq. Qed.

Lemma cumprod_from_length (v : list float) (acc : float) :
  length (cumprod_from acc v) = length v.
Proof.
  revert acc. induction v as [| x v IH]; intros acc; [reflexivity |].
  simpl. destruct (isnan x); simpl; now rewrite IH.
Qed.

Lemma portfolio_column_length (k0 : string) (d0 : DataFrame)
      (rest : list (string * DataFrame)) :
  d0 <> [] -> NoDup (map fst ((k0, d0) :: rest)) ->
  length (portfolio_column ((k0, d0) :: rest)) = length d0.
Proof.
  intros Hd0 Hkeys. unfold portfolio_column.
  rewrite length_combine, mean_axis1_length, Nat.min_id.
  rewrite (portfolio_returns_index k0 d0 rest Hd0 Hkeys). apply length_map.
Qed.

(** X5.  On the dict of fetched frames the portfolio tab never ends in an
    exception: with two or more tickers that have data it shows the
    analysis, with one the notice of line 364, with none the warning of
    line 366. *)
Theorem portfolio_analysis_fetched (download : string -> outcome DataFrame)
        (tickers : list string) :
  let stock_data := stock_data_of download tickers in
  (forall e, portfolio_analysis stock_data <> Crash e) /\
  ((2 <= length stock_data)%nat -> exists v, portfolio_analysis stock_data = Analysis v).
Proof.
  intros stock_data.
  destruct (collect_invariant download tickers [] [])
    as [Hnd Hin]; [split; [constructor | intros k d []] |].
  fold (stock_data_of download tickers) in Hnd, Hin. fold stock_data in Hnd, Hin.
  assert (H : (2 <= length stock_data)%nat ->
              exists v, portfolio_analysis stock_data = Analysis v).
  { intros Hlen. destruct stock_data as [| [k0 d0] [| e1 rest]];
      try (simpl in Hlen; lia).
    assert (Hd0 : d0 <> []) by (apply (Hin k0 d0); now left).
    pose proof (portfolio_column_length k0 d0 (e1 :: rest) Hd0 Hnd) as Hl.
    unfold portfolio_analysis. cbv zeta.
    destruct (portfolio_column ((k0, d0) :: e1 :: rest)) as [| [t x] s] eqn:Ec.
    - destruct d0; [contradiction | discriminate].
    - cbn [svalues map snd]. unfold cumprod. cbn [cumprod_from].
      destruct (isnan (fadd (Fin 1) x)); cbn [iloc_last]; eexists; reflexivity. }
  split; [| exact H].
  intros e E. destruct stock_data as [| e0 [| e1 rest]]; try discriminate.
  destruct (H ltac:(simpl; lia)) as [v Hv]. rewrite Hv in E. discriminate.
Qed.

Lemma portfolio_analysis_fetched_witness :
  exists v,
    portfolio_analysis (stock_data_of (fun _ => Returns sample_frame)
                                      ["AAPL"%string; "MSFT"%string]) = Analysis v.
Proof.
  apply (proj2 (portfolio_analysis_fetched (fun _ => Returns sample_frame)
                  ["AAPL"%string; "MSFT"%string])).
  simpl. lia.
Defined.

(** ** Normalised prices, cumulative returns and total return *)

(** X6.  The normalised price line of a frame starts at 100, has one
    point per row, and ends at 100 plus the total return that
    [calculate_metrics] reports. *)
Theorem normalized_total_return (df : DataFrame) (m : Metrics) :
  calculate_metrics (Some df) = Some m ->
  hd 0 (prices df) <> 0 ->
  exists v,
    normalized df = Returns v /\ length v = length df /\
    hd NaN v = Fin 100 /\
    fsub (last v NaN) (Fin 100) = total_return m.
Proof.
  intros Hm H0.
  destruct (calculate_metrics_fields df m Hm) as [_ [Ht _]].
  destruct df as [| r0 rest]; [discriminate |].
  cbn [prices map hd] in H0.
  eexists. split; [reflexivity |]. split; [apply length_map |]. split.
  - cbn [map hd]. rewrite fdiv_fin by exact H0. cbn [fmul].
    apply (f_equal Fin). field. exact H0.
  - rewrite Ht.
    set (f := fun r => fmul (fdiv (Fin (Close r)) (Fin (Close r0))) (Fin 100)).
    assert (Hlast : last (map f (r0 :: rest)) NaN =
                    Fin (last (prices (r0 :: rest)) 0 / Close r0 * 100)).
    { simpl map. rewrite last_cons_default. unfold prices. simpl map.
      rewrite last_cons_default, <- (last_map_default Close rest r0).
      rewrite <- (last_map_default f rest r0). unfold f.
      rewrite fdiv_fin by exact H0. reflexivity. }
    rewrite Hlast. generalize (last (prices (r0 :: rest)) 0). intros pn.
    cbn [prices map hd]. unfold fsub. cbn [fadd fopp].
    rewrite fdiv_fin by exact H0. cbn [fmul]. apply (f_equal Fin). field. exact H0.
Qed.

Lemma normalized_total_return_witness :
  exists m v,
    calculate_metrics (Some detour_frame) = Some m /\
    normalized detour_frame = Returns v /\
    fsub (last v NaN) (Fin 100) = total_return m.
Proof.
  eexists.
  destruct (normalized_total_return detour_frame _ eq_refl) as [v [Hv [_ [_ Ht]]]].
  - simpl. lra.
  - exists v. split; [reflexivity |]. split; assumption.
Defined.

(** The running product of the growth factors is the close over the first
    close, at every row. *)
Lemma wealth_from_prices (p : list R) : forall prev acc : R,
  prev <> 0 -> Forall (fun x => x <> 0) p ->
  rcumprod_from acc (map (fun x => 1 + x) (returns_from prev p)) =
  map (fun x => acc * x / prev) p.
Proof.
  induction p as [| x p IH]; intros prev acc Hprev Hp; [reflexivity |].
  inversion Hp as [| ? ? Hx Hp']; subst.
  simpl. rewrite (IH x _ Hx Hp'). f_equal.
  - field. exact Hprev.
  - apply map_ext. intros y. field. split; assumption.
Qed.

Lemma portfolio_first_column (k0 : string) (d0 : DataFrame)
      (rest : list (string * DataFrame)) :
  d0 <> [] -> NoDup (map fst ((k0, d0) :: rest)) ->
  column (portfolio_returns ((k0, d0) :: rest)) 0 = svalues (returns_col d0).
Proof.
  intros Hd0 Hkeys. rewrite portfolio_returns_fold. simpl fold_left.
  unfold add_ticker at 2. simpl fst. simpl snd.
  rewrite setitem_first by (try reflexivity; apply returns_col_nonempty; exact Hd0).
  rewrite fold_add_ticker.
  - reflexivity.
  - cbn [findex]. rewrite labels_returns_col. destruct d0; [contradiction | discriminate].
  - exact Hkeys.
Qed.

(** X7.  In the portfolio chart, the cumulative-return line of the first
    ticker is its normalised price line of the overview, except at the
    first timestamp, where it is missing instead of 100. *)
Theorem cumulative_line_normalized (k0 : string) (d0 : DataFrame)
        (rest : list (string * DataFrame)) :
  nonzero_prices d0 -> d0 <> [] ->
  NoDup (map fst ((k0, d0) :: rest)) ->
  exists v,
    normalized d0 = Returns v /\
    cumulative_line (column (portfolio_returns ((k0, d0) :: rest)) 0) = NaN :: tl v.
Proof.
  intros Hnz Hd0 Hkeys.
  rewrite (portfolio_first_column k0 d0 rest Hd0 Hkeys).
  destruct d0 as [| r0 d]; [contradiction |].
  inversion Hnz as [| ? ? H0 Hd]; subst.
  eexists. split; [reflexivity |].
  rewrite returns_col_fin by exact Hnz. cbn [svalues map snd tl].
  assert (Hl : length (map stamp d) = length (map Fin (returns (r0 :: d)))).
  { rewrite !length_map, returns_length. simpl length. lia. }
  pose proof (svalues_combine _ _ Hl) as Hv. unfold svalues in Hv. rewrite Hv.
  unfold cumulative_line, cumprod. cbn [map cumprod_from fadd isnan fmul]. f_equal.
  change (cumprod_from (Fin 1) (map (fadd (Fin 1)) (map Fin (returns (r0 :: d)))))
    with (cumprod (map (fadd (Fin 1)) (map Fin (returns (r0 :: d))))).
  rewrite cumulative_fin. unfold wealth, returns, prices. cbn [map].
  rewrite (wealth_from_prices (map Close d) (Close r0) 1 H0)
    by (rewrite Forall_map; exact Hd).
  rewrite !map_map. apply map_ext. intros r. cbn [fmul].
  rewrite fdiv_fin by exact H0. cbn [fmul]. apply (f_equal Fin). field. exact H0.
Qed.

Lemma cumulative_line_normalized_witness :
  exists v,
    normalized sample_frame = Returns v /\
    cumulative_line (column (portfolio_returns gap_portfolio) 0) = NaN :: tl v.
Proof.
  apply (cumulative_line_normalized "AAA"%string sample_frame
           [("BBB"%string, gap_frame)]).
  - apply positive_nonzero, sample_frame_positive.
  - discriminate.
  - simpl. repeat constructor; simpl; intuition discriminate.
Defined.

(** ** Prices in another unit *)

Lemma returns_from_rescale (c : R) (p : list R) : forall prev : R,
  c <> 0 -> prev <> 0 -> Forall (fun x => x <> 0) p ->
  returns_from (c * prev) (map (Rmult c) p) = returns_from prev p.
Proof.
  induction p as [| x p IH]; intros prev Hc Hprev Hp; [reflexivity |].
  inversion Hp as [| ? ? Hx Hp']; subst.
  simpl. f_equal; [field; split; assumption | now apply IH].
Qed.

Lemma rescale_nonzero (c : R) (df : DataFrame) :
  c <> 0 -> nonzero_prices df -> nonzero_prices (rescale c df).
Proof.
  intros Hc Hnz. unfold nonzero_prices, rescale. rewrite Forall_map.
  eapply Forall_impl; [| exact Hnz]. intros r Hr. simpl.
  apply Rmult_integral_contrapositive_currified; assumption.
Qed.

Lemma rescale_returns (c : R) (df : DataFrame) :
  c <> 0 -> nonzero_prices df -> returns (rescale c df) = returns df.
Proof.
  intros Hc Hnz. destruct df as [| r0 rest]; [reflexivity |].
  inversion Hnz as [| ? ? H0 Hrest]; subst.
  unfold returns, prices, rescale. cbn [map Close].
  rewrite map_map. cbn [Close]. rewrite <- (map_map Close (Rmult c)).
  apply returns_from_rescale; try assumption.
  rewrite Forall_map. exact Hrest.
Qed.

Lemma rescale_daily_values (c : R) (df : DataFrame) :
  c <> 0 -> nonzero_prices df ->
  svalues (daily_returns (rescale c df)) = svalues (daily_returns df).
Proof.
  intros Hc Hnz.
  rewrite !daily_values_fin by (try apply rescale_nonzero; assumption).
  now rewrite rescale_returns.
Qed.

(** X8.  Quoting the same prices in another unit (every close multiplied
    by a nonzero [c]) multiplies the current price by [c] and leaves the
    total return, the volatility, the Sharpe ratio, the maximum drawdown
    and the value at risk unchanged. *)
Theorem metrics_rescale (c : R) (df : DataFrame) (m : Metrics) :
  c <> 0 -> nonzero_prices df ->
  calculate_metrics (Some df) = Some m ->
  exists m',
    calculate_metrics (Some (rescale c df)) = Some m' /\
    current_price m' = fmul (Fin c) (current_price m) /\
    total_return m' = total_return m /\
    volatility m' = volatility m /\
    sharpe_ratio m' = sharpe_ratio m /\
    max_drawdown m' = max_drawdown m /\
    var_95 (rescale c df) = var_95 df.
Proof.
  intros Hc Hnz Hm.
  assert (Hne : rescale c df <> []) by (destruct df; [discriminate Hm | discriminate]).
  destruct (calculate_metrics_some _ Hne) as [m' Hm'].
  exists m'. split; [exact Hm' |].
  destruct (calculate_metrics_fields df m Hm) as [Hp [Ht [Hv [Hs Hd]]]].
  destruct (calculate_metrics_fields _ m' Hm') as [Hp' [Ht' [Hv' [Hs' Hd']]]].
  cbv zeta in *.
  rewrite (rescale_daily_values c df Hc Hnz) in Hv', Hs', Hd'.
  assert (Hprices : prices (rescale c df) = map (Rmult c) (prices df)).
  { unfold prices, rescale. rewrite !map_map. reflexivity. }
  destruct df as [| r0 rest]; [discriminate Hm |].
  inversion Hnz as [| ? ? H0 _]; subst.
  assert (Hlast : last (prices (rescale c (r0 :: rest))) 0 =
                  c * last (prices (r0 :: rest)) 0).
  { rewrite Hprices. unfold prices. simpl map. rewrite !last_cons_default.
    symmetry. apply (last_map_default (Rmult c)). }
  rewrite Hlast in Hp', Ht'. rewrite Hprices in Ht'.
  repeat split.
  - rewrite Hp', Hp. reflexivity.
  - rewrite Ht', Ht. generalize (last (prices (r0 :: rest)) 0). intros pn.
    cbn [prices map hd]. unfold fsub. cbn [fadd fopp].
    rewrite !fdiv_fin by (try apply Rmult_integral_contrapositive_currified; assumption).
    cbn [fmul]. apply (f_equal Fin). field. split; assumption.
  - now rewrite Hv', Hv.
  - now rewrite Hs', Hs.
  - now rewrite Hd', Hd.
  - unfold var_95. now rewrite (rescale_daily_values c (r0 :: rest) Hc Hnz).
Qed.

Lemma metrics_rescale_witness :
  exists m m',
    calculate_metrics (Some detour_frame) = Some m /\
    calculate_metrics (Some (rescale 2 detour_frame)) = Some m' /\
    total_return m' = total_return m.
Proof.
  eexists.
  destruct (metrics_rescale 2 detour_frame _ ltac:(lra)
              ltac:(repeat constructor; simpl; lra) eq_refl)
    as [m' [Hm' [_ [Ht _]]]].
  exists m'. split; [reflexivity |]. split; assumption.
Defined.

(** ** Bounds on the metrics *)

Lemma rdrawdown_from_gt (w : list R) : forall m : R,
  0 < m -> Forall (fun x => 0 < x) w ->
  Forall (fun x => -1 < x) (rdrawdown_from m w).
Proof.
  induction w as [| x w IH]; intros m Hm Hw; simpl; constructor;
    inversion Hw as [| ? ? Hx Hw']; subst.
  - assert (Hmax : 0 < Rmax m x) by (pose proof (Rmax_l m x); lra).
    replace ((x - Rmax m x) / Rmax m x) with (x / Rmax m x - 1) by (field; lra).
    pose proof (Rdiv_lt_0_compat x (Rmax m x) Hx Hmax). lra.
  - apply IH; [pose proof (Rmax_l m x); lra | exact Hw'].
Qed.

Lemma last_in_cons {A : Type} (l : list A) : forall x : A, In (last l x) (x :: l).
Proof.
  induction l as [| y l IH]; intros x; [now left |].
  rewrite last_cons_default. right. apply IH.
Qed.

Lemma rmin_list_in (l : list R) : l <> [] -> In (rmin_list l) l.
Proof.
  destruct l as [| a l]; [contradiction |]. intros _. simpl.
  destruct (fold_Rmin_in l a) as [-> | H]; [now left | now right].
Qed.

(** X9.  With positive closes the total return is a number above -100
    percent, and for a frame of at least two rows so is the maximum
    drawdown: a loss never exceeds the whole value. *)
Theorem metrics_loss_bounds (df : DataFrame) (m : Metrics) :
  calculate_metrics (Some df) = Some m ->
  positive_prices df ->
  (exists t : R, total_return m = Fin t /\ -100 < t) /\
  ((2 <= length df)%nat ->
   exists d : R, max_drawdown m = Fin d /\ -100 < d <= 0).
Proof.
  intros Hm Hpos.
  destruct (calculate_metrics_fields df m Hm) as [_ [Ht [_ [_ Hd]]]].
  cbv zeta in Hd. split.
  - destruct df as [| r0 rest]; [discriminate |].
    inversion Hpos as [| ? ? H0 Hrest]; subst.
    assert (Hlast : 0 < last (prices (r0 :: rest)) 0).
    { unfold prices. simpl map. rewrite last_cons_default.
      rewrite <- (last_map_default Close rest r0).
      unfold positive_prices in Hpos. rewrite Forall_forall in Hpos.
      apply Hpos. apply last_in_cons. }
    rewrite Ht. revert Hlast. generalize (last (prices (r0 :: rest)) 0). intros pn Hpn.
    cbn [prices map hd]. unfold fsub. cbn [fadd fopp].
    rewrite fdiv_fin by lra. cbn [fmul]. eexists. split; [reflexivity |].
    replace ((pn + - Close r0) / Close r0 * 100) with (pn / Close r0 * 100 - 100)
      by (field; lra).
    pose proof (Rdiv_lt_0_compat pn (Close r0) Hpn H0). lra.
  - intros Hlen.
    assert (Hr : returns df <> []).
    { intros E. apply (f_equal (@length R)) in E. rewrite returns_length in E.
      simpl in E. lia. }
    pose proof (wealth_positive df Hpos) as Hw.
    rewrite Hd, daily_values_fin by (apply positive_nonzero; exact Hpos).
    rewrite max_drawdown_of_fin by assumption.
    assert (Hne : wealth (returns df) <> []).
    { intros E. apply (f_equal (@length R)) in E. rewrite wealth_length in E.
      destruct (returns df); [contradiction | discriminate]. }
    destruct (rdrawdown_spec (wealth (returns df)) Hne Hw) as [Hle _].
    eexists. split; [reflexivity |]. split; [| lra].
    assert (Hall : Forall (fun x => -1 < x) (rdrawdown (wealth (returns df)))).
    { destruct (wealth (returns df)) as [| x w]; [contradiction |].
      inversion Hw as [| ? ? Hx Hw']; subst. simpl. constructor.
      - unfold Rdiv. rewrite Rminus_diag, Rmult_0_l. lra.
      - apply rdrawdown_from_gt; assumption. }
    rewrite Forall_forall in Hall.
    assert (Hin : In (rmin_list (rdrawdown (wealth (returns df))))
                     (rdrawdown (wealth (returns df)))).
    { apply rmin_list_in. destruct (wealth (returns df)); [contradiction | discriminate]. }
    specialize (Hall _ Hin). lra.
Qed.

Lemma metrics_loss_bounds_witness :
  exists (m : Metrics) (t : R),
    calculate_metrics (Some dip_frame) = Some m /\
    total_return m = Fin t /\ -100 < t.
Proof.
  eexists.
  destruct (metrics_loss_bounds dip_frame _ eq_refl
              ltac:(repeat constructor; simpl; lra)) as [[t [Ht Hb]] _].
  exists t. split; [reflexivity |]. split; assumption.
Defined.

(** ** Constant returns *)

Lemma sample_std_ssqdm (l : list R) :
  sample_std l = sqrt (ssqdm l / (INR (length l) - 1)).
Proof.
  unfold sample_std, ssqdm. do 3 f_equal. apply map_ext. intros x. ring.
Qed.

Lemma ssqdm_zero_iff (l : list R) :
  ssqdm l = 0 <-> forall x y, In x l -> In y l -> x = y.
Proof.
  split; [| apply ssqdm_constant].
  intros Hz x y Hx Hy. destruct (Req_dec_T x y) as [E | N]; [exact E |].
  exfalso. exact (ssqdm_distinct l x y Hx Hy N Hz).
Qed.

Lemma sample_std_zero_iff (l : list R) :
  (2 <= length l)%nat ->
  (sample_std l = 0 <-> forall x y, In x l -> In y l -> x = y).
Proof.
  intros Hl. rewrite sample_std_ssqdm, <- ssqdm_zero_iff.
  assert (Hn : 0 < INR (length l) - 1).
  { pose proof (le_INR 2 (length l) Hl) as H. simpl in H. lra. }
  pose proof (ssqdm_nonneg l) as Hs.
  assert (Hq : 0 <= ssqdm l / (INR (length l) - 1)).
  { apply Rmult_le_pos; [exact Hs | apply Rlt_le, Rinv_0_lt_compat; exact Hn]. }
  split.
  - intros E. apply sqrt_eq_0 in E; [| exact Hq].
    apply (f_equal (fun z => z * (INR (length l) - 1))) in E.
    unfold Rdiv in E. rewrite Rmult_assoc, Rinv_l, Rmult_1_r, Rmult_0_l in E by lra.
    exact E.
  - intros E. rewrite E. unfold Rdiv. rewrite Rmult_0_l. apply sqrt_0.
Qed.



(** ** Value at risk: bounds and the loop over the tickers *)

Lemma nth_in_bounds (l : list R) (lo hi : R) (i : nat) :
  Forall (fun x => lo <= x <= hi) l -> (i < length l)%nat ->
  lo <= nth i l 0 <= hi.
Proof.
  intros Hall Hi. rewrite Forall_forall in Hall. apply Hall. now apply nth_In.
Qed.

(** X11.  The value at risk lies between the bounds of the returns: if
    every daily return of a frame (at least two nonzero closes) is between
    [lo] and [hi], the value at risk is a number between [100 lo] and
    [100 hi]; it is never worse than the worst observed day. *)
Theorem var_95_between (df : DataFrame) (lo hi : R) :
  nonzero_prices df -> (2 <= length df)%nat ->
  Forall (fun x => lo <= x <= hi) (returns df) ->
  exists v : R, var_95 df = Returns (Fin v) /\ lo * 100 <= v <= hi * 100.
Proof.
  intros Hnz Hlen Hall.
  destruct (var_95_value df Hnz Hlen) as [Hv [Hperm _]]. cbv zeta in Hv.
  eexists. split; [exact Hv |].
  set (r := returns df) in *.
  assert (Hn : (1 <= length r)%nat) by (unfold r; rewrite returns_length; lia).
  assert (Hs : Forall (fun x => lo <= x <= hi) (rsort r)).
  { eapply Permutation_Forall; [apply Permutation_sym; exact Hperm | exact Hall]. }
  assert (Hlen' : length (rsort r) = length r) by (apply Permutation_length; exact Hperm).
  set (k := (5 * (length r - 1))%nat).
  assert (Hk : (k / 100 <= length r - 1)%nat).
  { apply Nat.Div0.div_le_upper_bound. unfold k. nia. }
  pose proof (nth_in_bounds (rsort r) lo hi (k / 100) Hs ltac:(lia)) as Ha.
  pose proof (nth_in_bounds (rsort r) lo hi (Nat.min (k / 100 + 1) (length r - 1)) Hs
                ltac:(lia)) as Hb.
  assert (Hg : 0 <= INR (k mod 100) / 100 <= 1).
  { pose proof (Nat.mod_upper_bound k 100 ltac:(lia)) as Hm.
    pose proof (pos_INR (k mod 100)) as H0.
    pose proof (le_INR (k mod 100) 100 ltac:(lia)) as H1.
    assert (E : INR 100 = 100) by (rewrite INR_IZR_INZ; reflexivity).
    rewrite E in H1. split; lra. }
  revert Ha Hb Hg.
  generalize (nth (k / 100) (rsort r) 0).
  generalize (nth (Nat.min (k / 100 + 1) (length r - 1)) (rsort r) 0).
  generalize (INR (k mod 100) / 100). intros g b a Ha Hb Hg. nra.
Qed.

Lemma var_95_between_witness :
  exists v : R, var_95 detour_frame = Returns (Fin v) /\ -1 * 100 <= v <= 1 * 100.
Proof.
  apply (var_95_between detour_frame (-1) 1).
  - repeat constructor; simpl; lra.
  - simpl. lia.
  - unfold returns. simpl. repeat constructor; lra.
Defined.

Lemma var_95_short (df : DataFrame) :
  (length df <= 1)%nat -> var_95 df = Raises IndexError.
Proof.
  intros H. destruct df as [| r0 [| r1 rest]]; [reflexivity | reflexivity |].
  simpl in H. lia.
Qed.

(** X12.  The value-at-risk table: when every ticker's frame has at least
    two rows and nonzero closes the loop ends with one entry per ticker, in
    the order of [stock_data]; as soon as one frame has fewer than two
    rows the loop raises [IndexError] and no table is produced. *)
Theorem var_data_spec (stock_data : list (string * DataFrame)) :
  (Forall (fun e => nonzero_prices (snd e) /\ (2 <= length (snd e))%nat) stock_data ->
   exists l, var_data stock_data = Returns l /\ map fst l = map fst stock_data) /\
  (Exists (fun e => (length (snd e) <= 1)%nat) stock_data ->
   var_data stock_data = Raises IndexError).
Proof.
  split.
  - induction 1 as [| [k df] sd [Hnz Hlen] _ [l [Hl Hk]]].
    + exists []. split; reflexivity.
    + simpl in Hnz, Hlen.
      destruct (var_95_value df Hnz Hlen) as [Hv _]. cbv zeta in Hv.
      simpl. rewrite Hv, Hl. eexists. split; [reflexivity |]. simpl. now rewrite Hk.
  - induction 1 as [[k df] sd Hshort | [k df] sd _ IH].
    + simpl in *. now rewrite (var_95_short df Hshort).
    + simpl. rewrite IH. destruct (var_95 df) as [v | []]; reflexivity.
Qed.

Lemma var_data_spec_witness :
  exists l, var_data flat_portfolio = Returns l /\
            map fst l = ["AAA"%string; "BBB"%string].
Proof.
  apply (proj1 (var_data_spec flat_portfolio)).
  repeat constructor; simpl; lra || lia.
Defined.

(** ** The overview columns *)

(** X13.  The overview never indexes a column that does not exist: for
    every position [idx] in [stock_data], [idx % 3] is below the number of
    columns created, [min(len(stock_data), 3)]. *)
Theorem col_idx_in_range (stock_data : list (string * DataFrame)) (idx : nat) :
  (idx < length stock_data)%nat ->
  (col_idx idx < overview_columns stock_data)%nat.
Proof.
  intros Hidx. unfold col_idx, overview_columns.
  pose proof (Nat.mod_upper_bound idx 3 ltac:(lia)) as Hm.
  destruct (Nat.le_gt_cases 3 (length stock_data)) as [H3 | H3].
  - rewrite Nat.min_r by exact H3. exact Hm.
  - rewrite Nat.min_l by lia. rewrite Nat.mod_small by lia. exact Hidx.
Qed.

Lemma col_idx_in_range_witness :
  (col_idx 1 < overview_columns gap_portfolio)%nat.
Proof. apply col_idx_in_range. simpl. lia. Defined.

(** ** Correlation entries: order of the two tickers, and bounds *)

Lemma fmul_comm (a b : float) : fmul a b = fmul b a.
Proof.
  destruct a as [x | | |], b as [y | | |]; simpl; try reflexivity.
  f_equal. apply Rmult_comm.
Qed.

Lemma zip_with_fmul_comm (u v : list float) :
  zip_with fmul u v = zip_with fmul v u.
Proof.
  revert v. induction u as [| x u IH]; intros [| y v]; try reflexivity.
  simpl. now rewrite fmul_comm, IH.
Qed.

Lemma paired_swap (x y : list float) :
  filter (fun p => (notna (fst p) && notna (snd p))%bool) (combine y x) =
  map (fun p => (snd p, fst p))
      (filter (fun p => (notna (fst p) && notna (snd p))%bool) (combine x y)).
Proof.
  revert y. induction x as [| a x IH]; intros [| b y]; try reflexivity.
  simpl. rewrite (andb_comm (notna b) (notna a)).
  destruct (notna a && notna b)%bool; simpl; now rewrite IH.
Qed.

Lemma pearson_sym (x y : list float) : pearson x y = pearson y x.
Proof.
  unfold pearson. cbv zeta. rewrite (paired_swap x y).
  set (l := filter (fun p => (notna (fst p) && notna (snd p))%bool) (combine x y)).
  assert (Hf : map fst (map (fun p : float * float => (snd p, fst p)) l) = map snd l)
    by (rewrite map_map; reflexivity).
  assert (Hs : map snd (map (fun p : float * float => (snd p, fst p)) l) = map fst l)
    by (rewrite map_map; reflexivity).
  rewrite Hf, Hs, length_map.
  set (dx := map (fun v => fsub v (fdiv (fsum (map fst l)) (Fin (INR (length l)))))
                 (map fst l)).
  set (dy := map (fun v => fsub v (fdiv (fsum (map snd l)) (Fin (INR (length l)))))
                 (map snd l)).
  rewrite (fmul_comm (fsum (zip_with fmul dy dy))), (zip_with_fmul_comm dy dx).
  reflexivity.
Qed.

(** X14.  Although only the entries on and below the diagonal are
    computed, every entry [(i, j)] of the correlation matrix is the Pearson
    correlation of column [i] with column [j], in that order. *)
Theorem corr_at_pearson (fr : Frame) (i j : nat) :
  (i < length (fcols fr))%nat -> (j < length (fcols fr))%nat ->
  corr_at fr i j = pearson (column fr i) (column fr j).
Proof.
  intros Hi Hj. rewrite (corr_at_entry fr i j Hi Hj).
  unfold corr_entry. fold (column fr (Nat.max i j)). fold (column fr (Nat.min i j)).
  destruct (Nat.le_gt_cases i j) as [H | H].
  - rewrite Nat.max_r, Nat.min_l by lia. apply pearson_sym.
  - rewrite Nat.max_l, Nat.min_r by lia. reflexivity.
Qed.

Lemma corr_at_pearson_witness :
  corr_at flat_returns 0 1 = pearson (column flat_returns 0) (column flat_returns 1).
Proof. apply corr_at_pearson; simpl; lia. Defined.

Lemma dot_cons (x y : R) (a b : list R) : dot (x :: a) (y :: b) = x * y + dot a b.
Proof. unfold dot. simpl. apply rsum_cons. Qed.

Lemma dot_self_nonneg (a : list R) : 0 <= dot a a.
Proof.
  induction a as [| x a IH]; [unfold dot, rsum; simpl; lra |].
  rewrite dot_cons. pose proof (Rle_0_sqr x) as H. unfold Rsqr in H. lra.
Qed.

Lemma psd_form (A B C x y : R) :
  0 <= A -> 0 <= B -> C * C <= A * B -> 2 * x * y * C <= A * (y * y) + B * (x * x).
Proof.
  intros HA HB HC.
  destruct (Req_dec_T A 0) as [-> | HA0].
  - assert (C = 0) by nra. subst. nra.
  - assert (HApos : 0 < A) by lra.
    assert (H : 0 <= A * (A * (y * y) + B * (x * x) - 2 * x * y * C)).
    { replace (A * (A * (y * y) + B * (x * x) - 2 * x * y * C))
        with ((A * y - C * x) * (A * y - C * x) + (A * B - C * C) * (x * x)) by ring.
      pose proof (Rle_0_sqr (A * y - C * x)) as H1. unfold Rsqr in H1.
      pose proof (Rle_0_sqr x) as H2. unfold Rsqr in H2. nra. }
    nra.
Qed.

(** The Cauchy-Schwarz inequality on lists. *)
Lemma cauchy_schwarz (a : list R) : forall b : list R,
  dot a b * dot a b <= dot a a * dot b b.
Proof.
  induction a as [| x a IH]; intros [| y b];
    try (unfold dot, rsum; simpl; lra).
  rewrite !dot_cons. specialize (IH b).
  pose proof (dot_self_nonneg a) as HA. pose proof (dot_self_nonneg b) as HB.
  pose proof (psd_form (dot a a) (dot b b) (dot a b) x y HA HB IH). nra.
Qed.

Lemma paired_finite (x : list float) : forall y : list float,
  finite_or_missing x -> finite_or_missing y ->
  exists u : list (R * R),
    filter (fun p => (notna (fst p) && notna (snd p))%bool) (combine x y) =
    map (fun p => (Fin (fst p), Fin (snd p))) u.
Proof.
  induction x as [| a x IH]; intros [| b y] Hx Hy; try (exists []; reflexivity).
  inversion Hx as [| ? ? Ha Hx']; inversion Hy as [| ? ? Hb Hy']; subst.
  destruct (IH y Hx' Hy') as [u Hu].
  destruct a as [r | | |], b as [s | | |]; try contradiction; simpl; rewrite Hu.
  - exists ((r, s) :: u). reflexivity.
  - exists u. reflexivity.
  - exists u. reflexivity.
  - exists u. reflexivity.
Qed.

Lemma pearson_bounded (x y : list float) :
  finite_or_missing x -> finite_or_missing y ->
  pearson x y = NaN \/ exists c : R, pearson x y = Fin c /\ -1 <= c <= 1.
Proof.
  intros Hx Hy. destruct (paired_finite x y Hx Hy) as [u Hu].
  unfold pearson. cbv zeta. rewrite Hu, length_map.
  assert (Hf : map fst (map (fun p : R * R => (Fin (fst p), Fin (snd p))) u) =
               map Fin (map fst u)) by (rewrite !map_map; reflexivity).
  assert (Hs : map snd (map (fun p : R * R => (Fin (fst p), Fin (snd p))) u) =
               map Fin (map snd u)) by (rewrite !map_map; reflexivity).
  rewrite Hf, Hs. clear Hf Hs Hu.
  destruct u as [| p u']; [left; reflexivity |].
  set (u := p :: u') in *.
  replace (length u <? 1)%nat with false
    by (symmetry; apply Nat.ltb_ge; unfold u; simpl; lia).
  assert (Hn : 0 < INR (length u)) by (apply INR_length_pos; discriminate).
  rewrite !fsum_fin, !fdiv_fin by lra.
  set (mx := rsum (map fst u) / INR (length u)).
  set (my := rsum (map snd u) / INR (length u)).
  assert (Hd : forall (m : R) (l : list R),
             map (fun v => fsub v (Fin m)) (map Fin l) =
             map Fin (map (fun v => v - m) l))
    by (intros; rewrite !map_map; reflexivity).
  rewrite !Hd, !zip_mul_fin, !fsum_fin.
  set (a := map (fun v => v - mx) (map fst u)).
  set (b := map (fun v => v - my) (map snd u)).
  fold (dot a a). fold (dot b b). fold (dot a b). cbn [fmul].
  pose proof (dot_self_nonneg a) as HA. pose proof (dot_self_nonneg b) as HB.
  pose proof (cauchy_schwarz a b) as HC.
  assert (HAB : 0 <= dot a a * dot b b) by (apply Rmult_le_pos; assumption).
  rewrite fsqrt_fin by exact HAB.
  unfold fneq0. destruct (Req_dec_T (sqrt (dot a a * dot b b)) 0) as [E | N];
    [left; reflexivity |].
  right. rewrite fdiv_fin by exact N. eexists. split; [reflexivity |].
  pose proof (sqrt_pos (dot a a * dot b b)) as Hs.
  pose proof (sqrt_sqrt (dot a a * dot b b) HAB) as Hss.
  set (D := sqrt (dot a a * dot b b)) in *.
  assert (HD : 0 < D) by lra.
  assert (Habs : - D <= dot a b <= D) by (split; nra).
  split.
  - apply (Rmult_le_reg_r D); [exact HD |].
    unfold Rdiv. rewrite Rmult_assoc, Rinv_l by lra. lra.
  - apply (Rmult_le_reg_r D); [exact HD |].
    unfold Rdiv. rewrite Rmult_assoc, Rinv_l by lra. lra.
Qed.

(** X15.  In a frame whose columns hold numbers or missing values, every
    entry of the correlation matrix is either missing or a number between
    -1 and 1. *)
Theorem corr_at_bounded (fr : Frame) (i j : nat) :
  (i < length (fcols fr))%nat -> (j < length (fcols fr))%nat ->
  Forall (fun c => finite_or_missing (snd c)) (fcols fr) ->
  corr_at fr i j = NaN \/ exists c : R, corr_at fr i j = Fin c /\ -1 <= c <= 1.
Proof.
  intros Hi Hj Hall. rewrite (corr_at_entry fr i j Hi Hj). unfold corr_entry.
  rewrite Forall_forall in Hall.
  apply pearson_bounded; apply Hall; apply nth_In; lia.
Qed.

Lemma corr_at_bounded_witness :
  corr_at flat_returns 1 0 = NaN \/
  exists c : R, corr_at flat_returns 1 0 = Fin c /\ -1 <= c <= 1.
Proof.
  apply corr_at_bounded; [simpl; lia | simpl; lia |].
  repeat constructor.
Defined.

(** ** The frame of returns stays rectangular *)

Lemma dict_set_Forall {A : Type} (P : string * A -> Prop) (key : string) (v : A)
      (d : list (string * A)) :
  (forall k, P (k, v)) -> Forall P d -> Forall P (dict_set key v d).
Proof.
  intros Hv Hd. induction Hd as [| [k w] d Hk Hd IH]; simpl.
  - constructor; [apply Hv | constructor].
  - destruct (String.eqb key k); constructor; try assumption. apply Hv.
Qed.

Lemma align_length (s : Series) (idx : list Z) : length (align s idx) = length idx.
Proof.
  unfold align. destruct (list_eq_dec Z.eq_dec (labels s) idx) as [<- | _].
  - unfold svalues, labels. now rewrite !length_map.
  - apply length_map.
Qed.

Lemma setitem_rectangular (fr : Frame) (key : string) (s : Series) :
  rectangular fr -> rectangular (setitem fr key s).
Proof.
  intros Hfr. unfold setitem, rectangular.
  destruct ((length (findex fr) =? 0)%nat && negb (length s =? 0)%nat)%bool.
  - cbn [findex fcols]. apply dict_set_Forall.
    + intros k. unfold svalues, labels. simpl. now rewrite !length_map.
    + rewrite Forall_map. apply Forall_forall. intros c _. simpl.
      unfold labels. now rewrite !length_map.
  - cbn [findex fcols]. apply dict_set_Forall; [| exact Hfr].
    intros k. simpl. apply align_length.
Qed.

Lemma fold_add_ticker_rectangular (sd : list (string * DataFrame)) : forall fr,
  rectangular fr -> rectangular (fold_left add_ticker sd fr).
Proof.
  induction sd as [| e sd IH]; intros fr Hfr; [exact Hfr |].
  simpl. apply IH. unfold add_ticker. now apply setitem_rectangular.
Qed.

(** X16.  Whatever the frames, the frame of returns built for the
    portfolio is rectangular: every ticker column has exactly one value
    per index entry.  With distinct tickers and a first frame that is not
    empty, its columns are the tickers in the order of [stock_data]. *)
Theorem portfolio_returns_rectangular (stock_data : list (string * DataFrame)) :
  rectangular (portfolio_returns stock_data) /\
  (NoDup (map fst stock_data) ->
   (forall e, hd_error stock_data = Some e -> snd e <> []) ->
   map fst (fcols (portfolio_returns stock_data)) = map fst stock_data).
Proof.
  split.
  - rewrite portfolio_returns_fold. apply fold_add_ticker_rectangular. constructor.
  - intros Hkeys Hfirst. destruct stock_data as [| [k0 d0] rest]; [reflexivity |].
    assert (Hd0 : d0 <> []) by (apply (Hfirst (k0, d0)); reflexivity).
    rewrite portfolio_returns_fold. simpl fold_left.
    unfold add_ticker at 2. simpl fst. simpl snd.
    rewrite setitem_first by (try reflexivity; apply returns_col_nonempty; exact Hd0).
    rewrite fold_add_ticker.
    + cbn [fcols findex empty_frame map dict_set app fst]. f_equal.
      rewrite map_map. reflexivity.
    + cbn [findex]. rewrite labels_returns_col. destruct d0; [contradiction | discriminate].
    + exact Hkeys.
Qed.

Lemma portfolio_returns_rectangular_witness :
  map fst (fcols (portfolio_returns gap_portfolio)) = ["AAA"%string; "BBB"%string].
Proof.
  apply (proj2 (portfolio_returns_rectangular gap_portfolio)).
  - simpl. repeat constructor; simpl; intuition discriminate.
  - intros e [= <-]. discriminate.
Defined.

(** ** The sign of the Sharpe ratio *)

Lemma rsum_shift (c : R) (l : list R) :
  rsum (map (fun x => x - c) l) = rsum l - INR (length l) * c.
Proof.
  induction l as [| x l IH]; [unfold rsum; simpl; ring |].
  simpl map. rewrite !rsum_cons, IH.
  replace (INR (length (x :: l))) with (INR (length l) + 1)
    by (symmetry; apply (S_INR (length l))).
  ring.
Qed.

Lemma rmean_shift (c : R) (l : list R) :
  l <> [] -> rmean (map (fun x => x - c) l) = rmean l - c.
Proof.
  intros Hl. unfold rmean. rewrite rsum_shift, length_map.
  pose proof (INR_length_pos l Hl). field. lra.
Qed.

(** X17.  For a frame of at least three nonzero closes whose returns are
    not all equal, the Sharpe ratio is a number, and it is positive exactly
    when the mean daily return exceeds the daily risk-free rate
    [0.02 / 252]. *)
Theorem sharpe_sign (df : DataFrame) (m : Metrics) :
  calculate_metrics (Some df) = Some m ->
  nonzero_prices df -> (3 <= length df)%nat ->
  (exists x y, In x (returns df) /\ In y (returns df) /\ x <> y) ->
  exists s : R,
    sharpe_ratio m = Fin s /\
    (0 < s <-> 2 / 100 / 252 < rmean (returns df)).
Proof.
  intros Hm Hnz Hlen [x [y [Hx [Hy Hxy]]]].
  assert (Hl : (2 <= length (returns df))%nat) by (rewrite returns_length; lia).
  assert (Hne : returns df <> []) by (intros E; rewrite E in Hx; contradiction).
  destruct (calculate_metrics_fields df m Hm) as [_ [_ [_ [Hsh _]]]].
  cbv zeta in Hsh. rewrite daily_values_fin in Hsh by exact Hnz.
  assert (Hstd : std (map Fin (returns df)) = Fin (sample_std (returns df)))
    by (apply std_fin; exact Hl).
  assert (Hs0 : sample_std (returns df) <> 0).
  { intros E. pose proof (proj1 (sample_std_zero_iff _ Hl) E) as Hall.
    apply Hxy. apply Hall; assumption. }
  assert (Hpos : 0 < sample_std (returns df)).
  { pose proof (sample_std_ssqdm (returns df)) as Hs.
    pose proof (sqrt_pos (ssqdm (returns df) / (INR (length (returns df)) - 1))).
    rewrite <- Hs in H. lra. }
  rewrite sharpe_of_nonzero_std in Hsh
    by (rewrite Hstd; intros E; injection E as E; contradiction).
  rewrite Hstd in Hsh. unfold risk_free_rate in Hsh.
  rewrite excess_fin, mean_fin in Hsh
    by (intros E; apply (f_equal (@length R)) in E; rewrite length_map in E;
        destruct (returns df); [contradiction | discriminate]).
  rewrite fdiv_fin in Hsh by exact Hs0. cbn [fmul sqrt252] in Hsh.
  eexists. split; [exact Hsh |].
  rewrite (rmean_shift _ _ Hne).
  assert (H252 : 0 < sqrt 252) by (apply sqrt_lt_R0; lra).
  assert (Hinv : 0 < / sample_std (returns df)) by (apply Rinv_0_lt_compat; exact Hpos).
  assert (HP : 0 < / sample_std (returns df) * sqrt 252)
    by (apply Rmult_lt_0_compat; assumption).
  unfold Rdiv at 1. rewrite Rmult_assoc. split.
  - intros H.
    assert (Ha : 0 < rmean (returns df) - 2 / 100 / 252).
    { apply (Rmult_lt_reg_r (/ sample_std (returns df) * sqrt 252)); [exact HP |].
      now rewrite Rmult_0_l. }
    lra.
  - intros H. apply Rmult_lt_0_compat; [lra | exact HP].
Qed.

Lemma sharpe_sign_witness :
  exists (m : Metrics) (s : R),
    calculate_metrics (Some detour_frame) = Some m /\ sharpe_ratio m = Fin s.
Proof.
  eexists.
  destruct (sharpe_sign detour_frame _ eq_refl
              ltac:(repeat constructor; simpl; lra) ltac:(simpl; lia))
    as [s [Hs _]].
  - exists (90 / 100 - 1), (121 / 90 - 1). unfold returns. simpl.
    split; [now left |]. split; [right; now left | lra].
  - exists s. split; [reflexivity | exact Hs].
Defined.

(** ** One ticker entered several times *)

Lemma NoDup_all_equal_length {A : Type} (l : list A) :
  NoDup l -> (forall a b, In a l -> In b l -> a = b) -> (length l <= 1)%nat.
Proof.
  intros Hnd Heq. destruct l as [| a [| b l]]; simpl; try lia.
  exfalso. inversion Hnd as [| ? ? Hnotin _]; subst. apply Hnotin.
  rewrite (Heq a b); [now left | now left | right; now left].
Qed.

(** X18.  When the ticker list names a single ticker, however many times,
    the dict holds at most one frame and the portfolio tab shows a notice,
    never an analysis. *)
Theorem single_ticker_no_portfolio (download : string -> outcome DataFrame)
        (tickers : list string) :
  (forall a b, In a tickers -> In b tickers -> a = b) ->
  let stock_data := stock_data_of download tickers in
  (length stock_data <= 1)%nat /\
  (portfolio_analysis stock_data = NoStockData \/
   portfolio_analysis stock_data = NeedTwoStocks).
Proof.
  intros Heq stock_data.
  destruct (collect_invariant download tickers [] [])
    as [Hnd Hin]; [split; [constructor | intros k d []] |].
  fold (stock_data_of download tickers) in Hnd, Hin. fold stock_data in Hnd, Hin.
  assert (Hlen : (length (map fst stock_data) <= 1)%nat).
  { apply NoDup_all_equal_length; [exact Hnd |].
    intros a b Ha Hb. apply in_map_iff in Ha, Hb.
    destruct Ha as [[ka da] [<- Ha]], Hb as [[kb db] [<- Hb]]. simpl.
    apply Heq; [apply (Hin ka da Ha) | apply (Hin kb db Hb)]. }
  rewrite length_map in Hlen. split; [exact Hlen |].
  destruct stock_data as [| e0 [| e1 rest]]; [now left | now right |].
  simpl in Hlen. lia.
Qed.

Lemma single_ticker_no_portfolio_witness :
  (length (stock_data_of (fun _ => Returns sample_frame)
                          ["AAPL"%string; "AAPL"%string]) <= 1)%nat.
Proof.
  apply (single_ticker_no_portfolio (fun _ => Returns sample_frame)
           ["AAPL"%string; "AAPL"%string]).
  simpl. intros a b [<- | [<- | []]] [<- | [<- | []]]; reflexivity.
Defined.
